(** * p3D_acoustic: 3-D acoustic wave propagation on a PETSc DMDA grid

    A shallow embedding of [p3D_acoustic.c]: the Ricker source evaluator
    [source_term], the right-hand-side callback [update_b_ux], the operator
    callback [compute_A_ux] and the time loop of [main], followed by the
    properties of the stencil, of the right-hand side, of the wavelet and of
    the history rotation.

    Conventions of the embedding.
    - [PetscInt] and [int] values are integers [Z]; the loop counters of the
      two callbacks are [unsigned int], whose 32-bit wrap-around and whose
      conversions from and to [PetscInt] are written out ([u32], [i32]).
    - [PetscScalar] and [double] values live in a type [T] with the
      operations of the interface [PetscScalar]. Everything that is proved
      for an arbitrary instance holds whatever the arithmetic does (rounding
      included); statements that need algebra are made at the instance [R_scalar]
      of exact real arithmetic, and the set-up of [main], whose conversion
      to an integer is sensitive to rounding, is evaluated at the instance
      [f64_scalar] of IEEE double precision. The literal [1.2f] keeps its
      single-precision value in every instance.
    - A [Vec] seen through [DMDAVecGetArray] is an array [a k j i]; a [Mat] is
      a finite map from (row, column) stencil pairs to values.
    - Each process runs the callbacks on the box of nodes it owns
      ([DMDALocalInfo]); the statements are about the owned nodes, which are
      all the nodes when the run is on one process ([serial_grid]).
    - PETSc calls that can fail return in the error monad [res]; the Krylov
      kernel and the null-space removal are parameters ([PetscServices]). *)

From Stdlib Require Import ZArith Reals Lra Lia.
From Stdlib Require Import Floats.PrimFloat Floats.SpecFloat Floats.FloatOps.
From Stdlib Require Import Numbers.Cyclic.Int63.Uint63.
From stdpp Require Import gmap list strings pretty.

Set Implicit Arguments.
Set Default Proof Using "Type*".

(* ===================================================================== *)
(** ** Scalars *)
(* ===================================================================== *)

(** The arithmetic the program performs on [PetscScalar]/[double] values. *)
Class PetscScalar (T : Type) : Type := {
  sadd : T → T → T;
  ssub : T → T → T;
  smul : T → T → T;
  sdiv : T → T → T;
  sneg : T → T;
  (** [(double) n] for an integer [n] *)
  of_int : Z → T;
  (** the decimal literal [m]e-[e], e.g. [lit 31415926535 10] for
      [3.1415926535] and [lit 1800 0] for [1800.f] *)
  lit : Z → nat → T;
  s_sin : T → T;
  s_cos : T → T;
  s_exp : T → T;
  (** [pow(x, n)] at the integral exponents the program uses *)
  s_pow : T → nat → T;
  (** [(PetscInt) x] *)
  to_int : T → Z
}.

Declare Scope scalar_scope.
Delimit Scope scalar_scope with S.
Infix "[+]" := sadd (at level 50, left associativity) : scalar_scope.
Infix "[-]" := ssub (at level 50, left associativity) : scalar_scope.
Infix "[*]" := smul (at level 40, left associativity) : scalar_scope.
Infix "[/]" := sdiv (at level 40, left associativity) : scalar_scope.
Notation "[~] x" := (sneg x) (at level 35, right associativity) : scalar_scope.
Open Scope scalar_scope.
Open Scope Z_scope.

(** Conversion of a real to an integer by truncation towards zero. *)
Definition R_trunc (x : R) : Z :=
  if Rle_dec 0 x then Int_part x else - Int_part (- x)%R.

(** Exact real arithmetic: the idealisation of [double] without rounding. *)
#[export] Instance R_scalar : PetscScalar R := {|
  sadd := Rplus;
  ssub := Rminus;
  smul := Rmult;
  sdiv := Rdiv;
  sneg := Ropp;
  of_int := IZR;
  lit := λ m e, (IZR m / 10 ^ e)%R;
  s_sin := sin;
  s_cos := cos;
  s_exp := exp;
  s_pow := pow;
  to_int := R_trunc
|}.

(** Double precision: the arithmetic of [double] where it is IEEE 754
    binary64 with rounding to nearest, operation by operation (no extended
    precision, no contraction), on the kernel's primitive floats. *)

(** [(double) n]: exact for the [int] values, and up to [2^53]. *)
Definition f64_of_int (n : Z) : float :=
  match n with
  | Z0 => PrimFloat.zero
  | Zpos _ => PrimFloat.of_uint63 (Uint63.of_Z n)
  | Zneg p => PrimFloat.opp (PrimFloat.of_uint63 (Uint63.of_Z (Zpos p)))
  end.

(** A decimal literal: numerator and power of ten are exact below [2^53],
    and their quotient is rounded once, to the double nearest to the
    decimal. *)
Definition f64_lit (m : Z) (e : nat) : float :=
  PrimFloat.div (f64_of_int m) (f64_of_int (10 ^ Z.of_nat e)).

(** [(PetscInt) x]: the fractional part is discarded. C leaves the
    conversion of an infinity or a NaN undefined; it reads 0 here. *)
Definition f64_to_int (x : float) : Z :=
  match Prim2SF x with
  | S754_finite sign m e =>
      let a := match e with
               | Z0 => Zpos m
               | Zpos _ => Z.shiftl (Zpos m) e
               | Zneg k => Z.shiftr (Zpos m) (Zpos k)
               end in
      if sign then - a else a
  | _ => 0
  end.

(** The functions of the C mathematical library are not fixed by IEEE 754:
    they are parameters of the instance. *)
Definition f64_scalar (libm_sin libm_cos libm_exp : float → float)
    (libm_pow : float → nat → float) : PetscScalar float := {|
  sadd := PrimFloat.add;
  ssub := PrimFloat.sub;
  smul := PrimFloat.mul;
  sdiv := PrimFloat.div;
  sneg := PrimFloat.opp;
  of_int := f64_of_int;
  lit := f64_lit;
  s_sin := libm_sin;
  s_cos := libm_cos;
  s_exp := libm_exp;
  s_pow := libm_pow;
  to_int := f64_to_int
|}.

(* ===================================================================== *)
(** ** Machine integers *)
(* ===================================================================== *)

(** Value of an [int] converted to [unsigned int]. *)
Definition u32 (x : Z) : Z := x mod 2 ^ 32.

(** Value of an [unsigned int] converted to [PetscInt]. *)
Definition i32 (x : Z) : Z := if decide (x < 2 ^ 31) then x else x - 2 ^ 32.

(* ===================================================================== *)
(** ** Errors *)
(* ===================================================================== *)

Inductive error : Type :=
  | ArrayBounds           (* write or read outside a local C array *)
  | Uninitialized         (* read of a local array slot never written *)
  | PetscError (code : Z) (* a PETSc call returned a nonzero code *).

Inductive res (A : Type) : Type :=
  | Ok (a : A)
  | Err (e : error).
Arguments Ok {A} a.
Arguments Err {A} e.

#[export] Instance res_ret : MRet res := λ A a, Ok a.
#[export] Instance res_bind : MBind res := λ A B f m,
  match m with
  | Ok a => f a
  | Err e => Err e
  end.

(** PETSC_ERR_ARG_OUTOFRANGE *)
Definition PETSC_ERR_ARG_OUTOFRANGE : Z := 63.

(* ===================================================================== *)
(** ** Loops *)
(* ===================================================================== *)

(** [for (x = lo; x < hi; x++) s = body x s]. The counter of the callbacks
    is unsigned with bounds [lo], [hi] below [2^32], the one of [main] an
    [int] with [hi] at most [2^31]: it stays below [hi] and never wraps.
    An error in the body leaves the loop (CHKERRQ). *)
Fixpoint for_iter {St : Type} (n : nat) (x : Z) (body : Z → St → res St) (s : St)
  : res St :=
  match n with
  | O => Ok s
  | S n' =>
      match body x s with
      | Ok s' => for_iter n' (x + 1) body s'
      | Err e => Err e
      end
  end.

Definition for_range {St : Type} (lo hi : Z) (body : Z → St → res St) (s : St)
  : res St :=
  for_iter (Z.to_nat (hi - lo)) lo body s.

(* ===================================================================== *)
(** ** Data model *)
(* ===================================================================== *)

(** [MatStencil]: the grid indices of one matrix row or column (the
    component field [c] is ignored by PETSc for one degree of freedom and is
    never set by the program). *)
Record MatStencil : Type := Stencil { st_k : Z; st_j : Z; st_i : Z }.

#[export] Instance MatStencil_eq_dec : EqDecision MatStencil.
Proof. solve_decision. Defined.

#[export] Instance MatStencil_countable : Countable MatStencil.
Proof.
  refine (inj_countable' (λ s, (st_k s, st_j s, st_i s))
                         (λ p, Stencil p.1.1 p.1.2 p.2) _).
  by intros [].
Defined.

(** [DMDALocalInfo]: global node counts and the box owned by this process. *)
Record DMDALocalInfo : Type := {
  mx : Z; my : Z; mz : Z;
  xs : Z; ys : Z; zs : Z;
  xm : Z; ym : Z; zm : Z
}.

Section Data.
Variable T : Type.

(** A vector through [DMDAVecGetArray]: [a k j i] is [a[k][j][i]]. *)
Definition Vec : Type := Z → Z → Z → T.

Record wfield : Type := {
  ux : Vec; uxm1 : Vec; uxm2 : Vec; uxm3 : Vec
}.

Record model_par : Type := {
  nx : Z; ny : Z; nz : Z;
  dx : T; dy : T; dz : T;
  xmax : T; xmin : T; ymax : T; ymin : T; zmax : T; zmin : T;
  c11 : Vec; rho : Vec
}.

Record time_par : Type := {
  dt : T; t0 : T; tmax : T; t : T;
  it : Z; nt : Z
}.

Record source : Type := {
  isrc : Z; jsrc : Z; ksrc : Z;
  factor : T; angle_force : T; f0 : T;
  fx : T; fy : T; fz : T
}.

(** The user context (the receivers member is never used). *)
Record ctx_t : Type := {
  wf : wfield; model : model_par; time : time_par; src : source
}.
End Data.

Arguments Vec T : clear implicits.
Arguments wfield T : clear implicits.
Arguments model_par T : clear implicits.
Arguments time_par T : clear implicits.
Arguments source T : clear implicits.
Arguments ctx_t T : clear implicits.

(** A matrix under assembly: the values set so far, by (row, column). *)
Abbreviation Mat T := (gmap (MatStencil * MatStencil) T).

(** The four vectors of the wavefield history. *)
Inductive wf_slot : Type := UX | UXM1 | UXM2 | UXM3.

(** The external services of the solve: the Krylov kernel, run on the
    operator, the right-hand side and the vector that receives the solution,
    and the removal of the constant null space from a vector. *)
Class PetscServices (T : Type) : Type := {
  KSP_kernel : Mat T → Vec T → Vec T → Vec T;
  MatNullSpaceRemove : Vec T → Vec T
}.

(** The row under construction in [compute_A_ux]: the count [n] and the
    local arrays [v[7]] and [idxn[7]]; a slot is [None] until it is written. *)
Record stencil_row (T : Type) : Type := {
  row_n : Z;
  row_v : list (option T);
  row_idxn : list (option MatStencil)
}.

(** The state of [main] across the time loop: the operator of the solver
    once it has been computed, the context and the vector [b]. *)
Record sim_state (T : Type) : Type := {
  sim_A : option (Mat T);
  sim_ctx : ctx_t T;
  sim_b : Vec T
}.

Unset Implicit Arguments.

(* ===================================================================== *)
(** ** The program *)
(* ===================================================================== *)

Section Program.
Context {T : Type} {ops : PetscScalar T}.

(** *** Assignments to members of the context *)

Definition set_force (c : ctx_t T) (force_x force_y force_z : T) : ctx_t T :=
  {| wf := wf c; model := model c; time := time c;
     src := {| isrc := isrc (src c); jsrc := jsrc (src c);
               ksrc := ksrc (src c); factor := factor (src c);
               angle_force := angle_force (src c); f0 := f0 (src c);
               fx := force_x; fy := force_y; fz := force_z |} |}.

Definition set_it (c : ctx_t T) (n : Z) : ctx_t T :=
  {| wf := wf c; model := model c; src := src c;
     time := {| dt := dt (time c); t0 := t0 (time c);
                tmax := tmax (time c); t := t (time c);
                it := n; nt := nt (time c) |} |}.

Definition set_wf (c : ctx_t T) (w : wfield T) : ctx_t T :=
  {| wf := w; model := model c; time := time c; src := src c |}.

(** *** Vectors *)

Definition VecSet (x : T) : Vec T := λ _ _ _, x.

(** [a[k][j][i] = x] *)
Definition vec_set (a : Vec T) (k j i : Z) (x : T) : Vec T :=
  λ k' j' i', if decide (k' = k ∧ j' = j ∧ i' = i) then x else a k' j' i'.

Definition wf_get (s : wf_slot) (w : wfield T) : Vec T :=
  match s with
  | UX => ux w | UXM1 => uxm1 w | UXM2 => uxm2 w | UXM3 => uxm3 w
  end.

Definition wf_put (s : wf_slot) (a : Vec T) (w : wfield T) : wfield T :=
  match s with
  | UX => {| ux := a; uxm1 := uxm1 w; uxm2 := uxm2 w; uxm3 := uxm3 w |}
  | UXM1 => {| ux := ux w; uxm1 := a; uxm2 := uxm2 w; uxm3 := uxm3 w |}
  | UXM2 => {| ux := ux w; uxm1 := uxm1 w; uxm2 := a; uxm3 := uxm3 w |}
  | UXM3 => {| ux := ux w; uxm1 := uxm1 w; uxm2 := uxm2 w; uxm3 := a |}
  end.

(** [VecCopy(x, y)]: y = x *)
Definition VecCopy (x y : wf_slot) (w : wfield T) : wfield T :=
  wf_put y (wf_get x w) w.

(** *** source_term *)

(** [#define PI 3.1415926535] *)
Definition PI : T := lit 31415926535 10.

(** The literal [1.2f] of [source_term]. Its type is [float]: its value is
    the single-precision number nearest to 1.2, which is
    10066330 / 2^23 = 1.2000000476837158203125, and the conversion to
    [PetscScalar] keeps that value. Every other literal of the program with
    the suffix f is a whole number (0, 1, 2, 4, 5, 10, 70, 180, 1000,
    1800), which single precision holds exactly. *)
Definition float_1_2 : T := of_int 10066330 [/] of_int 8388608.

(** The Ricker wavelet: the value of the local variable [source_term]. *)
Definition ricker (c : ctx_t T) : T :=
  let f0 := f0 (src c) in
  let it := of_int (it (time c)) in
  let t0 := float_1_2 [/] f0 in
  let dt := dt (time c) in
  let factor := factor (src c) in
  let a := PI [*] PI [*] f0 [*] f0 in
  let t := (it [-] of_int 1) [*] dt in
  factor [*] (lit 1 0 [-] lit 2 0 [*] a [*] s_pow (t [-] t0) 2)
         [*] s_exp ([~] a [*] s_pow (t [-] t0) 2).

(** [DEGREES_TO_RADIANS] is the token sequence [PI/180.f], so
    [angle_force * DEGREES_TO_RADIANS] is [(angle_force * PI) / 180.f]. *)
Definition source_term (c : ctx_t T) : ctx_t T :=
  let angle_force := angle_force (src c) in
  let source_term := ricker c in
  let force_x := s_sin (angle_force [*] PI [/] lit 180 0) [*] source_term in
  let force_y := s_cos (angle_force [*] PI [/] lit 180 0) [*] source_term in
  let force_z := s_sin (angle_force [*] PI [/] lit 180 0) [*] source_term in
  set_force c force_x force_y force_z.

(** *** The boundary test of both callbacks *)

(** [(i == 0) || (i == (grid.mx - 1)) || (j == 0) || ...] with unsigned
    [i], [j], [k]. *)
Definition on_boundary (grid : DMDALocalInfo) (k j i : Z) : bool :=
  (i =? 0) || (i =? u32 (mx grid - 1)) ||
  (j =? 0) || (j =? u32 (my grid - 1)) ||
  (k =? 0) || (k =? u32 (mz grid - 1)).

(** *** update_b_ux *)

(** The body of the loop nest at the node [k], [j], [i]. *)
Definition b_node (grid : DMDALocalInfo) (c : ctx_t T) (dt2 hx hy hz : T)
    (k j i : Z) (_b : Vec T) : Vec T :=
  if on_boundary grid k j i then vec_set _b k j i (lit 0 0)
  else
    let f := hx [*] hy [*] hz in
    let source_term :=
      if (i =? u32 (isrc (src c))) && (j =? u32 (jsrc (src c)))
         && (k =? u32 (ksrc (src c)))
      then dt2 [/] rho (model c) k j i [*] fx (src c)
      else lit 0 0 in
    let f := f [*] (lit 5 0 [*] uxm1 (wf c) k j i
                    [-] lit 4 0 [*] uxm2 (wf c) k j i
                    [+] lit 1 0 [*] uxm3 (wf c) k j i
                    [+] source_term) in
    vec_set _b k j i f.

(** The loop nest over the owned box, filling [_b]. *)
Definition fill_b (grid : DMDALocalInfo) (c : ctx_t T) (dt2 : T)
    (_b : Vec T) : res (Vec T) :=
  let hx := lit 1 0 [/] of_int (mx grid - 1) in
  let hy := lit 1 0 [/] of_int (my grid - 1) in
  let hz := lit 1 0 [/] of_int (mz grid - 1) in
  for_range (u32 (zs grid)) (u32 (zs grid + zm grid)) (λ k,
    for_range (u32 (ys grid)) (u32 (ys grid + ym grid)) (λ j,
      for_range (u32 (xs grid)) (u32 (xs grid + xm grid)) (λ i _b,
        Ok (b_node grid c dt2 hx hy hz k j i _b)))) _b.

Definition update_b_ux {srv : PetscServices T} (grid : DMDALocalInfo)
    (b : Vec T) (c : ctx_t T) : res (ctx_t T * Vec T) :=
  let c := source_term c in
  let dt2 := s_pow (dt (time c)) 2 in
  _b ← fill_b grid c dt2 b;
  Ok (c, MatNullSpaceRemove _b).

(** *** compute_A_ux *)

(** [a[n] = x] on a local array. *)
Definition arr_write {A : Type} (a : list (option A)) (n : Z) (x : A)
  : res (list (option A)) :=
  if decide (0 ≤ n < Z.of_nat (length a))
  then Ok (<[Z.to_nat n := Some x]> a)
  else Err ArrayBounds.

(** The value of [a[n]]. *)
Definition arr_read {A : Type} (a : list (option A)) (n : Z) : res A :=
  if decide (0 ≤ n) then
    match a !! Z.to_nat n with
    | Some (Some x) => Ok x
    | Some None => Err Uninitialized
    | None => Err ArrayBounds
    end
  else Err ArrayBounds.

(** [idxn[n] = col; v[n] = x; n++] *)
Definition add_column (col : MatStencil) (x : T) (r : stencil_row T)
  : res (stencil_row T) :=
  idxn ← arr_write (row_idxn r) (row_n r) col;
  v ← arr_write (row_v r) (row_n r) x;
  Ok {| row_n := row_n r + 1; row_v := v; row_idxn := idxn |}.

(** The row of the node [k], [j], [i], built in the arrays [v], [idxn]. *)
Definition fill_row (grid : DMDALocalInfo) (c : ctx_t T)
    (dt2 hx hy hz hyhzdhx hxhzdhy hxhydhz : T) (k j i : Z)
    (v : list (option T)) (idxn : list (option MatStencil))
  : res (stencil_row T) :=
  let c11 := c11 (model c) in
  let rho := rho (model c) in
  let n := 1 in
  idxn ← arr_write idxn 0 (Stencil (i32 k) (i32 j) (i32 i));
  if on_boundary grid k j i then
    v ← arr_write v 0 (lit 1 0);
    Ok {| row_n := n; row_v := v; row_idxn := idxn |}
  else
    v ← arr_write v 0 (c11 k j i [*] dt2 [/] rho k j i [*] lit 2 0
                        [*] (hyhzdhx [+] hxhzdhy [+] hxhydhz));
    r ← Ok {| row_n := n; row_v := v; row_idxn := idxn |};
    r ← (if u32 (i - 1) >? 0
         then add_column (Stencil (i32 k) (i32 j) (i32 (u32 (i - 1))))
                ([~] c11 k j i [*] dt2 [/] rho k j i [*] hyhzdhx) r
         else Ok r);
    r ← (if u32 (i + 1) <? u32 (mx grid - 1)
         then add_column (Stencil (i32 k) (i32 j) (i32 (u32 (i + 1))))
                ([~] c11 k j i [*] dt2 [/] rho k j i [*] hyhzdhx) r
         else Ok r);
    r ← (if u32 (j - 1) >? 0
         then add_column (Stencil (i32 k) (i32 (u32 (j - 1))) (i32 i))
                ([~] c11 k j i [*] dt2 [/] rho k j i [*] hxhzdhy) r
         else Ok r);
    r ← (if u32 (j + 1) <? u32 (my grid - 1)
         then add_column (Stencil (i32 k) (i32 (u32 (j + 1))) (i32 i))
                ([~] c11 k j i [*] dt2 [/] rho k j i [*] hxhzdhy) r
         else Ok r);
    r ← (if u32 (k - 1) >? 0
         then add_column (Stencil (i32 (u32 (k - 1))) (i32 j) (i32 i))
                ([~] c11 k j i [*] dt2 [/] rho k j i [*] hxhydhz) r
         else Ok r);
    r ← (if u32 (k + 1) <? u32 (mz grid - 1)
         then add_column (Stencil (i32 (u32 (k + 1))) (i32 j) (i32 i))
                ([~] c11 k j i [*] dt2 [/] rho k j i [*] hxhydhz) r
         else Ok r);
    v0 ← arr_read (row_v r) 0;
    v ← arr_write (row_v r) 0 (v0 [+] lit 2 0 [*] hx [*] hy [*] hz);
    Ok {| row_n := row_n r; row_v := v; row_idxn := row_idxn r |}.

(** A stencil index that names a node of the grid. *)
Definition in_grid (grid : DMDALocalInfo) (s : MatStencil) : bool :=
  bool_decide (0 ≤ st_i s < mx grid ∧ 0 ≤ st_j s < my grid
               ∧ 0 ≤ st_k s < mz grid).

(** [MatSetValuesStencil(A, 1, &idxm, n, idxn, v, INSERT_VALUES)]: the
    first [n] columns and values are read from the arrays and set in the
    row [idxm]; an index outside the grid is an argument out of range. *)
Definition MatSetValuesStencil (grid : DMDALocalInfo) (A : Mat T)
    (idxm : MatStencil) (n : Z) (idxn : list (option MatStencil))
    (v : list (option T)) : res (Mat T) :=
  for_range 0 n (λ col A,
    q ← arr_read idxn col;
    x ← arr_read v col;
    if in_grid grid idxm && in_grid grid q
    then Ok (<[(idxm, q) := x]> A)
    else Err (PetscError PETSC_ERR_ARG_OUTOFRANGE)) A.

Definition compute_A_ux (grid : DMDALocalInfo) (A : Mat T) (c : ctx_t T)
  : res (Mat T) :=
  let dt := dt (time c) in
  let dt2 := dt [*] dt in
  let hx := lit 1 0 [/] of_int (mx grid - 1) in
  let hy := lit 1 0 [/] of_int (my grid - 1) in
  let hz := lit 1 0 [/] of_int (mz grid - 1) in
  let hyhzdhx := hy [*] hz [/] hx in
  let hxhzdhy := hx [*] hz [/] hy in
  let hxhydhz := hx [*] hy [/] hz in
  '(A, v, idxn) ←
    for_range (u32 (zs grid)) (u32 (zs grid + zm grid)) (λ k,
      for_range (u32 (ys grid)) (u32 (ys grid + ym grid)) (λ j,
        for_range (u32 (xs grid)) (u32 (xs grid + xm grid))
          (λ i '(A, v, idxn),
            r ← fill_row grid c dt2 hx hy hz hyhzdhx hxhzdhy hxhydhz
                  k j i v idxn;
            A ← MatSetValuesStencil grid A
                  (Stencil (i32 k) (i32 j) (i32 i))
                  (row_n r) (row_idxn r) (row_v r);
            Ok (A, row_v r, row_idxn r))))
      (A, replicate 7 None, replicate 7 None);
  Ok A.
End Program.

Section Main.
Context {T : Type} {ops : PetscScalar T} {srv : PetscServices T}.

(** *** main, up to the time loop *)

(** The set-up of [main]: [da] is the grid made by [DMDACreate3d] (25 nodes
    per axis unless the options say otherwise), [w] holds the contents of
    the freshly created wavefield vectors and [ctx] the members of the
    context that [main] never assigns. The vectors [c11] and [rho] are
    constant, so [VecMax] gives [cmax] the value 1800. No test is made on
    the node counts. *)
Definition main_setup (da : DMDALocalInfo) (w : wfield T) (ctx : ctx_t T)
  : ctx_t T :=
  let nx := mx da in
  let ny := my da in
  let nz := mz da in
  let c11 := VecSet (lit 1800 0) in
  let rho := VecSet (lit 1000 0) in
  let xmax := lit 1000 0 in
  let ymax := lit 1000 0 in
  let zmax := lit 1000 0 in
  let dx := xmax [/] of_int nx in
  let dy := ymax [/] of_int ny in
  let dz := zmax [/] of_int nz in
  let cmax := lit 1800 0 in
  let dt := dx [/] cmax in
  let tmax := lit 1 0 in
  let nt := to_int (tmax [/] dt) in
  {| wf := w;
     model := {| nx := nx; ny := ny; nz := nz;
                 dx := dx; dy := dy; dz := dz;
                 xmax := xmax; xmin := xmin (model ctx);
                 ymax := ymax; ymin := ymin (model ctx);
                 zmax := zmax; zmin := zmin (model ctx);
                 c11 := c11; rho := rho |};
     time := {| dt := dt; t0 := t0 (time ctx); tmax := tmax;
                t := t (time ctx); it := it (time ctx); nt := nt |};
     src := {| isrc := nx ÷ 2; jsrc := ny ÷ 2; ksrc := nz ÷ 2;
               factor := s_pow (lit 10 0) 10;
               angle_force := of_int 90;
               f0 := lit 70 0;
               fx := fx (src ctx); fy := fy (src ctx);
               fz := fz (src ctx) |} |}.

(** *** The time loop *)

(** [KSPSolve(ksp_ux, b, *pux)] with the two callbacks registered on the
    solver: the set-up of the solve calls the right-hand side callback on
    every call, and the operator callback on the first call only, on a
    fresh matrix that the solver keeps. *)
Definition KSPSolve (grid : DMDALocalInfo) (s : sim_state T)
  : res (sim_state T) :=
  '(c, b) ← update_b_ux grid (sim_b s) (sim_ctx s);
  A ← match sim_A s with
      | Some A => Ok A
      | None => compute_A_ux grid ∅ c
      end;
  let x := KSP_kernel A b (ux (wf c)) in
  Ok {| sim_A := Some A; sim_ctx := set_wf c (wf_put UX x (wf c));
        sim_b := b |}.

(** The history rotation after the solve. *)
Definition rotate (w : wfield T) : wfield T :=
  let w := VecCopy UXM2 UXM3 w in
  let w := VecCopy UXM1 UXM2 w in
  VecCopy UX UXM1 w.

(** One iteration of the loop of [main] (the report and the snapshot of
    every 40th step change nothing in the state). *)
Definition time_step (grid : DMDALocalInfo) (it : Z) (s : sim_state T)
  : res (sim_state T) :=
  let s := {| sim_A := sim_A s; sim_ctx := set_it (sim_ctx s) it;
              sim_b := sim_b s |} in
  s ← KSPSolve grid s;
  Ok {| sim_A := sim_A s;
        sim_ctx := set_wf (sim_ctx s) (rotate (wf (sim_ctx s)));
        sim_b := sim_b s |}.

(** The state after the iterations [it = 1 .. n]. *)
Definition run (grid : DMDALocalInfo) (n : Z) (s : sim_state T)
  : res (sim_state T) :=
  for_range 1 (n + 1) (time_step grid) s.


(** The state before the loop: the set-up is done and the solver has no
    operator yet. *)
Definition main_state (da : DMDALocalInfo) (w : wfield T) (ctx : ctx_t T)
    (b : Vec T) : sim_state T :=
  {| sim_A := None; sim_ctx := main_setup da w ctx; sim_b := b |}.

End Main.

(* ===================================================================== *)
(** ** Vocabulary of the statements *)
(* ===================================================================== *)

(** A grid as PETSc hands it out: the owned box lies inside the grid and the
    node counts fit a [PetscInt]. *)
Definition wf_grid (g : DMDALocalInfo) : Prop :=
  (0 ≤ xs g ∧ 0 ≤ xm g ∧ xs g + xm g ≤ mx g ∧ mx g < 2 ^ 31) ∧
  (0 ≤ ys g ∧ 0 ≤ ym g ∧ ys g + ym g ≤ my g ∧ my g < 2 ^ 31) ∧
  (0 ≤ zs g ∧ 0 ≤ zm g ∧ zs g + zm g ≤ mz g ∧ mz g < 2 ^ 31).

(** The layout of a run on one process: the whole grid is owned. *)
Definition serial_grid (M N P : Z) : DMDALocalInfo :=
  {| mx := M; my := N; mz := P; xs := 0; ys := 0; zs := 0;
     xm := M; ym := N; zm := P |}.

(** The nodes this process loops over. *)
Definition owned (g : DMDALocalInfo) (p : MatStencil) : Prop :=
  (xs g ≤ st_i p < xs g + xm g) ∧ (ys g ≤ st_j p < ys g + ym g) ∧
  (zs g ≤ st_k p < zs g + zm g).

(** A node with an index at its axis minimum or maximum. *)
Definition boundary_node (g : DMDALocalInfo) (p : MatStencil) : Prop :=
  st_i p = 0 ∨ st_i p = mx g - 1 ∨ st_j p = 0 ∨ st_j p = my g - 1 ∨
  st_k p = 0 ∨ st_k p = mz g - 1.

Definition interior_node (g : DMDALocalInfo) (p : MatStencil) : Prop :=
  (0 < st_i p < mx g - 1) ∧ (0 < st_j p < my g - 1) ∧
  (0 < st_k p < mz g - 1).

Inductive axis : Type := AxisX | AxisY | AxisZ.

(** The index of a node along an axis, and the node count of the axis. *)
Definition coord (a : axis) (p : MatStencil) : Z :=
  match a with AxisX => st_i p | AxisY => st_j p | AxisZ => st_k p end.

Definition count (a : axis) (g : DMDALocalInfo) : Z :=
  match a with AxisX => mx g | AxisY => my g | AxisZ => mz g end.

(** The face neighbour of [p] at distance [d] (1 or -1) along [a]. *)
Definition shift (a : axis) (d : Z) (p : MatStencil) : MatStencil :=
  match a with
  | AxisX => Stencil (st_k p) (st_j p) (st_i p + d)
  | AxisY => Stencil (st_k p) (st_j p + d) (st_i p)
  | AxisZ => Stencil (st_k p + d) (st_j p) (st_i p)
  end.

(** A node all of whose face neighbours lie strictly inside the grid. *)
Definition far_from_boundary (g : DMDALocalInfo) (p : MatStencil) : Prop :=
  ∀ a d, d = 1 ∨ d = -1 →
    0 < coord a (shift a d p) < count a g - 1.

(** The nodes of a box that a loop nest in the order k, j, i has passed
    when it stands at [K], [J], [I]. *)
Definition passed (zlo zhi ylo yhi xlo xhi K J I : Z) (p : MatStencil)
  : Prop :=
  (zlo ≤ st_k p < zhi ∧ ylo ≤ st_j p < yhi ∧ xlo ≤ st_i p < xhi) ∧
  (st_k p < K ∨ (st_k p = K ∧ (st_j p < J ∨ (st_j p = J ∧ st_i p < I)))).

Section Vocabulary.
Context {T : Type} {ops : PetscScalar T}.

(** The spacing both callbacks compute for an axis of [m] nodes. *)
Definition spacing (m : Z) : T := lit 1 0 [/] of_int (m - 1).

(** The face area over spacing ratio of the couplings along an axis:
    [hyhzdhx], [hxhzdhy], [hxhydhz]. *)
Definition ratio (g : DMDALocalInfo) (a : axis) : T :=
  let hx := spacing (mx g) in
  let hy := spacing (my g) in
  let hz := spacing (mz g) in
  match a with
  | AxisX => hy [*] hz [/] hx
  | AxisY => hx [*] hz [/] hy
  | AxisZ => hx [*] hy [/] hz
  end.

(** The value of a coupling of the node [p] along the axis [a]. *)
Definition coupling (g : DMDALocalInfo) (c : ctx_t T) (p : MatStencil)
    (a : axis) : T :=
  let dt := dt (time c) in
  [~] c11 (model c) (st_k p) (st_j p) (st_i p) [*] (dt [*] dt)
    [/] rho (model c) (st_k p) (st_j p) (st_i p) [*] ratio g a.

(** The diagonal value of an interior node [p]. *)
Definition diagonal (g : DMDALocalInfo) (c : ctx_t T) (p : MatStencil)
  : T :=
  let dt := dt (time c) in
  c11 (model c) (st_k p) (st_j p) (st_i p) [*] (dt [*] dt)
    [/] rho (model c) (st_k p) (st_j p) (st_i p) [*] lit 2 0
    [*] (ratio g AxisX [+] ratio g AxisY [+] ratio g AxisZ)
  [+] lit 2 0 [*] spacing (mx g) [*] spacing (my g) [*] spacing (mz g).

(** The coupling of [p] towards [shift a d p], present when the neighbour
    is strictly inside the grid. *)
Definition coupling_entry (g : DMDALocalInfo) (c : ctx_t T)
    (p : MatStencil) (a : axis) (d : Z) : list (MatStencil * T) :=
  if decide (0 < coord a p + d < count a g - 1)
  then [(shift a d p, coupling g c p a)] else [].

(** The columns and values of the row of [p], in the order of insertion. *)
Definition row_entries (g : DMDALocalInfo) (c : ctx_t T) (p : MatStencil)
  : list (MatStencil * T) :=
  if decide (boundary_node g p) then [(p, lit 1 0)]
  else (p, diagonal g c p) ::
       coupling_entry g c p AxisX (-1) ++ coupling_entry g c p AxisX 1 ++
       coupling_entry g c p AxisY (-1) ++ coupling_entry g c p AxisY 1 ++
       coupling_entry g c p AxisZ (-1) ++ coupling_entry g c p AxisZ 1.

(** The value of the matrix at a position; nothing set reads as zero. *)
Definition mat_get (A : Mat T) (p q : MatStencil) : T :=
  default (lit 0 0) (A !! (p, q)).

(** The time of the step and the delay of the wavelet in [source_term]. *)
Definition step_time (c : ctx_t T) : T :=
  (of_int (it (time c)) [-] of_int 1) [*] dt (time c).

Definition wavelet_delay (c : ctx_t T) : T := float_1_2 [/] f0 (src c).

(** The angle passed to [sin] and [cos] in [source_term]. *)
Definition force_angle (c : ctx_t T) : T :=
  angle_force (src c) [*] PI [/] lit 180 0.

(** The node that carries the source. *)
Definition source_node (c : ctx_t T) : MatStencil :=
  Stencil (ksrc (src c)) (jsrc (src c)) (isrc (src c)).

(** The entry of a vector at a node. *)
Definition vec_at (a : Vec T) (p : MatStencil) : T :=
  a (st_k p) (st_j p) (st_i p).

(** The value the loop nest of [update_b_ux] leaves in [_b] at a node. *)
Definition b_value (g : DMDALocalInfo) (c : ctx_t T) (dt2 : T)
    (p : MatStencil) : T :=
  if decide (boundary_node g p) then lit 0 0
  else
    spacing (mx g) [*] spacing (my g) [*] spacing (mz g)
    [*] (lit 5 0 [*] vec_at (uxm1 (wf c)) p
         [-] lit 4 0 [*] vec_at (uxm2 (wf c)) p
         [+] lit 1 0 [*] vec_at (uxm3 (wf c)) p
         [+] (if decide (p = source_node c)
              then dt2 [/] vec_at (rho (model c)) p [*] fx (src c)
              else lit 0 0)).

(** The source indices are values of the type [PetscInt]. *)
Definition src_in_range (c : ctx_t T) : Prop :=
  (- 2 ^ 31 ≤ isrc (src c) < 2 ^ 31) ∧ (- 2 ^ 31 ≤ jsrc (src c) < 2 ^ 31)
  ∧ (- 2 ^ 31 ≤ ksrc (src c) < 2 ^ 31).
(** The first [row_n] slots of the arrays of a row hold the list [l] of
    columns and values; both arrays have their 7 slots. *)
Definition row_holds (r : stencil_row T) (l : list (MatStencil * T))
  : Prop :=
  row_n r = Z.of_nat (length l) ∧
  length (row_v r) = 7%nat ∧ length (row_idxn r) = 7%nat ∧
  take (length l) (row_idxn r) = (λ e, Some e.1) <$> l ∧
  take (length l) (row_v r) = (λ e, Some e.2) <$> l.

(** The matrix after the columns and values [l] are set in the row
    [idxm], in this order. *)
Definition set_row (idxm : MatStencil) (A : Mat T)
    (l : list (MatStencil * T)) : Mat T :=
  foldl (λ A e, <[(idxm, e.1) := e.2]> A) A l.
(** The diagonal value in the words of the specification: with the
    spacings [dx], [dy], [dz] of the grid model. *)
Definition spec_diagonal (c : ctx_t T) (p : MatStencil) : T :=
  let dx := dx (model c) in
  let dy := dy (model c) in
  let dz := dz (model c) in
  let dt := dt (time c) in
  vec_at (c11 (model c)) p [*] (dt [*] dt) [/] vec_at (rho (model c)) p
    [*] lit 2 0
    [*] (dy [*] dz [/] dx [+] dx [*] dz [/] dy [+] dx [*] dy [/] dz)
  [+] lit 2 0 [*] dx [*] dy [*] dz.

(** The right-hand side in the words of the specification: the history
    scaled by the spacings [sx], [sy], [sz], and the source term added
    outside the scaling. *)
Definition spec_rhs (sx sy sz : T) (c : ctx_t T) (dt2 : T)
    (p : MatStencil) : T :=
  sx [*] sy [*] sz
  [*] (lit 5 0 [*] vec_at (uxm1 (wf c)) p
       [-] lit 4 0 [*] vec_at (uxm2 (wf c)) p
       [+] lit 1 0 [*] vec_at (uxm3 (wf c)) p)
  [+] (if decide (p = source_node c)
       then dt2 [/] vec_at (rho (model c)) p [*] fx (src c)
       else lit 0 0).
(** The content of the operator assembled by this process: the rows of
    the owned nodes. *)
Definition assembled (g : DMDALocalInfo) (c : ctx_t T) (A : Mat T)
  : Prop :=
  ∀ p q x, A !! (p, q) = Some x ↔
           owned g p ∧ (q, x) ∈ row_entries g c p.
(** What the time loop leaves unchanged in the context: the model, the
    time step, the number of steps and the parameters of the source. *)
Definition same_params (c c' : ctx_t T) : Prop :=
  model c' = model c ∧ dt (time c') = dt (time c)
  ∧ nt (time c') = nt (time c)
  ∧ isrc (src c') = isrc (src c) ∧ jsrc (src c') = jsrc (src c)
  ∧ ksrc (src c') = ksrc (src c) ∧ factor (src c') = factor (src c)
  ∧ angle_force (src c') = angle_force (src c)
  ∧ f0 (src c') = f0 (src c).
End Vocabulary.

(** *** Sample data over the reals, for closed examples *)

Definition zero_vec : Vec R := VecSet 0%R.

Definition zero_wfield : wfield R :=
  {| ux := zero_vec; uxm1 := zero_vec; uxm2 := zero_vec; uxm3 := zero_vec |}.

Definition zero_ctx : ctx_t R :=
  {| wf := zero_wfield;
     model := {| nx := 0; ny := 0; nz := 0; dx := 0%R; dy := 0%R; dz := 0%R;
                 xmax := 0%R; xmin := 0%R; ymax := 0%R; ymin := 0%R;
                 zmax := 0%R; zmin := 0%R; c11 := zero_vec; rho := zero_vec |};
     time := {| dt := 0%R; t0 := 0%R; tmax := 0%R; t := 0%R;
                it := 0; nt := 0 |};
     src := {| isrc := 0; jsrc := 0; ksrc := 0; factor := 0%R;
               angle_force := 0%R; f0 := 0%R; fx := 0%R; fy := 0%R;
               fz := 0%R |} |}.

(** Services that hand the right-hand side back as the solution. *)
Definition sample_services : PetscServices R :=
  {| KSP_kernel := λ _ b _, b; MatNullSpaceRemove := λ b, b |}.

(** Sample data in double precision: a mathematical library whose [pow]
    multiplies (exact for the 10^10 of [main]) and whose [sin], [cos] and
    [exp] are stand-ins, for closed examples of the set-up of [main], which
    calls none of these three; and a context with every member at zero. *)
Definition sample_doubles : PetscScalar float :=
  f64_scalar (λ x, x) (λ x, x) (λ x, x)
    (λ x n, Nat.iter n (PrimFloat.mul x) PrimFloat.one).

Definition f64_zero_vec : Vec float := λ _ _ _, PrimFloat.zero.

Definition f64_zero_wfield : wfield float :=
  {| ux := f64_zero_vec; uxm1 := f64_zero_vec; uxm2 := f64_zero_vec;
     uxm3 := f64_zero_vec |}.

Definition f64_zero_ctx : ctx_t float :=
  {| wf := f64_zero_wfield;
     model := {| nx := 0; ny := 0; nz := 0; dx := PrimFloat.zero;
                 dy := PrimFloat.zero; dz := PrimFloat.zero;
                 xmax := PrimFloat.zero; xmin := PrimFloat.zero;
                 ymax := PrimFloat.zero; ymin := PrimFloat.zero;
                 zmax := PrimFloat.zero; zmin := PrimFloat.zero;
                 c11 := f64_zero_vec; rho := f64_zero_vec |};
     time := {| dt := PrimFloat.zero; t0 := PrimFloat.zero;
                tmax := PrimFloat.zero; t := PrimFloat.zero;
                it := 0; nt := 0 |};
     src := {| isrc := 0; jsrc := 0; ksrc := 0; factor := PrimFloat.zero;
               angle_force := PrimFloat.zero; f0 := PrimFloat.zero;
               fx := PrimFloat.zero; fy := PrimFloat.zero;
               fz := PrimFloat.zero |} |}.

(** The grid of [main] without options, on one process, and its context. *)
Definition grid25 : DMDALocalInfo := serial_grid 25 25 25.

Definition ctx25 : ctx_t R := main_setup grid25 zero_wfield zero_ctx.

(** A grid of 3 nodes per axis on one process; its context after the set-up
    of [main] with the vector of step n-1 at 1 everywhere, the older ones
    at 0, and the force (1, 0, 1). The single interior node (1, 1, 1) is the
    source node. *)
Definition grid3 : DMDALocalInfo := serial_grid 3 3 3.

Definition ctx3 : ctx_t R :=
  set_force
    (main_setup grid3
       {| ux := zero_vec; uxm1 := VecSet 1%R; uxm2 := zero_vec;
          uxm3 := zero_vec |} zero_ctx)
    1%R 0%R 1%R.

(** A grid with 2 nodes along x, on one process. *)
Definition grid2 : DMDALocalInfo := serial_grid 2 25 25.

(** A context whose time step equals the delay 1.2f / f0 of the wavelet, at
    the step [n]: the time of step 2 is the delay. *)
Definition peak_ctx (n : Z) : ctx_t R :=
  {| wf := zero_wfield; model := model ctx25;
     time := {| dt := wavelet_delay ctx25; t0 := 0%R; tmax := 1%R; t := 0%R;
                it := n; nt := 3 |};
     src := src ctx25 |}.

(** The context of [main] without options at the step 2, with a time step
    [d] given: the time of the step is [d]. *)
Definition timed_ctx (d : R) : ctx_t R :=
  {| wf := zero_wfield; model := model ctx25;
     time := {| dt := d; t0 := 0%R; tmax := 1%R; t := 0%R;
                it := 2; nt := 3 |};
     src := src ctx25 |}.

(** The difference between the delay of the wavelet for the frequency 70
    of [main] and the decimal 1.2 / 70. *)
Definition delay_excess : R := (10066330 / 8388608 / 70 - 12 / 10 / 70)%R.

(* ===================================================================== *)
(** ** The diagnostics of main and the snapshots *)
(* ===================================================================== *)

(** [snprintf(buffer, size, ...)] of a text [s]: at most [size - 1]
    characters are stored before the terminating null. *)
Definition snprintf (size : nat) (s : string) : string :=
  String.substring 0 (size - 1) s.

(** [snprintf(buffer, sizeof(buffer), "tmp_Bvec_%i.m", it)] with
    [char buffer[32]]; [%i] prints the decimal digits of the [int], after a
    minus sign when it is negative. *)
Definition snapshot_name (it : Z) : string :=
  snprintf 32 ("tmp_Bvec_" +:+ pretty it +:+ ".m").

Section Report.
Context {T : Type} {ops : PetscScalar T} {srv : PetscServices T}.

(** The CFL number that [main] prints, [cmax] times [dt] over [dx], with
    [cmax] the maximum 1800 of the constant vector [c11]. *)
Definition cfl_number (c : ctx_t T) : T :=
  lit 1800 0 [*] dt (time c) [/] dx (model c).

(** [save_wavefield_to_m_file(u, filename)]: the viewer opens the file of
    this name for writing and the vector is written to it; the files are a
    finite map from names to contents. *)
Definition save_wavefield_to_m_file (u : Vec T) (filename : string)
    (files : gmap string (Vec T)) : gmap string (Vec T) :=
  <[filename := u]> files.

(** One iteration of the loop of [main] with the block of every 40th step
    ([((int) it % 40) == 0]), which saves [*pux] under the name of the
    step. *)
Definition time_step_report (grid : DMDALocalInfo) (it : Z)
    (st : sim_state T * gmap string (Vec T))
  : res (sim_state T * gmap string (Vec T)) :=
  s ← time_step grid it st.1;
  Ok (s, if Z.rem it 40 =? 0
         then save_wavefield_to_m_file (ux (wf (sim_ctx s)))
                (snapshot_name it) st.2
         else st.2).

(** The state and the files after the iterations [it = 1 .. n]. *)
Definition run_report (grid : DMDALocalInfo) (n : Z)
    (st : sim_state T * gmap string (Vec T))
  : res (sim_state T * gmap string (Vec T)) :=
  for_range 1 (n + 1) (time_step_report grid) st.

(** The product of the row [p] of a matrix with a vector, over the seven
    positions of the star: the node and its six face neighbours. *)
Definition star_product (A : Mat T) (x : Vec T) (p : MatStencil) : T :=
  mat_get A p p [*] vec_at x p
  [+] mat_get A p (shift AxisX (-1) p) [*] vec_at x (shift AxisX (-1) p)
  [+] mat_get A p (shift AxisX 1 p) [*] vec_at x (shift AxisX 1 p)
  [+] mat_get A p (shift AxisY (-1) p) [*] vec_at x (shift AxisY (-1) p)
  [+] mat_get A p (shift AxisY 1 p) [*] vec_at x (shift AxisY 1 p)
  [+] mat_get A p (shift AxisZ (-1) p) [*] vec_at x (shift AxisZ (-1) p)
  [+] mat_get A p (shift AxisZ 1 p) [*] vec_at x (shift AxisZ 1 p).
End Report.

(** [f x && f (x + 1) && ...] over [n] consecutive integers. *)
Fixpoint all_from (n : nat) (x : Z) (f : Z → bool) : bool :=
  match n with
  | O => true
  | S n' => f x && all_from n' (x + 1) f
  end.

(** What the set-up of [main] gives in double precision on a grid of [x]
    nodes along the first axis, compared with the values of exact
    arithmetic, 9 x / 5 steps and a CFL number of 1: the number of steps
    is the integer quotient 9 x / 5, or one less when 5 divides x, and the
    CFL number is 1 or one of its two neighbours among the doubles. *)
Definition setup_as_expected (ops : PetscScalar float) (w : wfield float)
    (ctx : ctx_t float) (x : Z) : bool :=
  let c := main_setup (serial_grid x 1 1) w ctx in
  let n := nt (time c) in
  ((n =? 9 * x / 5) || ((x mod 5 =? 0) && (n =? 9 * x / 5 - 1)))
  && PrimFloat.leb (PrimFloat.next_down PrimFloat.one) (cfl_number c)
  && PrimFloat.leb (cfl_number c) (PrimFloat.next_up PrimFloat.one).

(* ===================================================================== *)
(** ** Machine integers and loops: basic facts *)
(* ===================================================================== *)

Lemma u32_small x : 0 ≤ x < 2 ^ 32 → u32 x = x.
Proof. intros H. unfold u32. by apply Z.mod_small. Qed.

Lemma i32_small x : x < 2 ^ 31 → i32 x = x.
Proof. intros H. unfold i32. by rewrite decide_True. Qed.

Lemma res_bind_Ok {A B : Type} (f : A → res B) (a : A) : (Ok a ≫= f) = f a.
Proof. reflexivity. Qed.

Lemma for_iter_inv {St : Type} (P : Z → St → Prop) (body : Z → St → res St)
    (n : nat) :
  ∀ x s,
    P x s →
    (∀ y s1, x ≤ y < x + Z.of_nat n → P y s1 →
       ∃ s2, body y s1 = Ok s2 ∧ P (y + 1) s2) →
    ∃ s', for_iter n x body s = Ok s' ∧ P (x + Z.of_nat n) s'.
Proof.
  induction n as [|n IH]; intros x s HP Hstep.
  - exists s. split; [done|]. by replace (x + Z.of_nat 0) with x by lia.
  - destruct (Hstep x s) as (s2 & Hb & HP2); [lia|done|].
    simpl. rewrite Hb.
    destruct (IH (x + 1) s2 HP2) as (s' & Hrun & HP').
    { intros y s1 Hy. apply Hstep. lia. }
    exists s'. split; [done|].
    by replace (x + Z.of_nat (S n)) with (x + 1 + Z.of_nat n) by lia.
Qed.

Lemma for_range_inv {St : Type} (P : Z → St → Prop) (body : Z → St → res St)
    (lo hi : Z) (s : St) :
  lo ≤ hi →
  P lo s →
  (∀ y s1, lo ≤ y < hi → P y s1 → ∃ s2, body y s1 = Ok s2 ∧ P (y + 1) s2) →
  ∃ s', for_range lo hi body s = Ok s' ∧ P hi s'.
Proof.
  intros Hle HP Hstep. unfold for_range.
  destruct (for_iter_inv P body (Z.to_nat (hi - lo)) lo s HP) as (s' & ? & ?).
  { intros y s1 Hy. apply Hstep. lia. }
  exists s'. split; [done|].
  by replace hi with (lo + Z.of_nat (Z.to_nat (hi - lo))) by lia.
Qed.

(** Unrolling the last iteration. *)
Lemma for_range_last {St : Type} (body : Z → St → res St) (lo hi : Z) (s : St) :
  lo ≤ hi →
  for_range lo (hi + 1) body s = for_range lo hi body s ≫= body hi.
Proof.
  intros Hle. unfold for_range.
  replace (Z.to_nat (hi + 1 - lo)) with (S (Z.to_nat (hi - lo))) by lia.
  remember (Z.to_nat (hi - lo)) as n eqn:Hn.
  assert (hi = lo + Z.of_nat n) as -> by lia. clear Hn Hle.
  revert lo s. induction n as [|n IH]; intros lo s.
  - simpl. replace (lo + Z.of_nat 0) with lo by lia.
    by destruct (body lo s).
  - change (for_iter (S (S n)) lo body s)
      with (match body lo s with
            | Ok s' => for_iter (S n) (lo + 1) body s'
            | Err e => Err e
            end).
    change (for_iter (S n) lo body s)
      with (match body lo s with
            | Ok s' => for_iter n (lo + 1) body s'
            | Err e => Err e
            end).
    destruct (body lo s) as [s'|e]; [|done].
    rewrite (IH (lo + 1) s').
    by replace (lo + 1 + Z.of_nat n) with (lo + Z.of_nat (S n)) by lia.
Qed.


(** An invariant indexed by the set of nodes already visited, carried
    through a loop nest in the order k, j, i. *)
Section LoopNest.
Context {St : Type}.
Variables zlo zhi ylo yhi xlo xhi : Z.
Variable body : Z → Z → Z → St → res St.
Variable Inv : (MatStencil → Prop) → St → Prop.

Abbreviation seen := (passed zlo zhi ylo yhi xlo xhi).

Hypothesis Hz : zlo ≤ zhi.
Hypothesis Hy : ylo ≤ yhi.
Hypothesis Hx : xlo ≤ xhi.
Hypothesis Inv_ext :
  ∀ D D' s, (∀ p, D p ↔ D' p) → Inv D s → Inv D' s.
Hypothesis Inv_step :
  ∀ k j i s, zlo ≤ k < zhi → ylo ≤ j < yhi → xlo ≤ i < xhi →
    Inv (seen k j i) s →
    ∃ s', body k j i s = Ok s' ∧ Inv (seen k j (i + 1)) s'.

Lemma nest_inv (s0 : St) :
  Inv (λ _, False) s0 →
  ∃ s', for_range zlo zhi (λ k,
          for_range ylo yhi (λ j,
            for_range xlo xhi (λ i, body k j i))) s0 = Ok s'
        ∧ Inv (λ p, zlo ≤ st_k p < zhi ∧ ylo ≤ st_j p < yhi
                     ∧ xlo ≤ st_i p < xhi) s'.
Proof using All.
  intros H0.
  destruct (for_range_inv (λ K s, Inv (seen K ylo xlo) s)
              (λ k, for_range ylo yhi (λ j,
                      for_range xlo xhi (λ i, body k j i)))
              zlo zhi s0 Hz) as (s' & Hrun & Hend).
  - eapply Inv_ext; [|exact H0].
    intros p. unfold passed. lia.
  - intros k s1 Hk Hs1.
    destruct (for_range_inv (λ J s, Inv (seen k J xlo) s)
                (λ j, for_range xlo xhi (λ i, body k j i))
                ylo yhi s1 Hy Hs1) as (s2 & Hrun2 & Hend2).
    + intros j s2 Hj Hs2.
      destruct (for_range_inv (λ I s, Inv (seen k j I) s)
                  (λ i, body k j i) xlo xhi s2 Hx Hs2)
        as (s3 & Hrun3 & Hend3).
      * intros i s3 Hi Hs3. by apply Inv_step.
      * exists s3. split; [done|].
        eapply Inv_ext; [|exact Hend3].
        intros p. unfold passed. lia.
    + exists s2. split; [done|].
      eapply Inv_ext; [|exact Hend2].
      intros p. unfold passed. lia.
  - exists s'. split; [done|].
    eapply Inv_ext; [|exact Hend].
    intros p. unfold passed. lia.
Qed.
End LoopNest.

(* ===================================================================== *)
(** ** The boundary test and the right-hand side *)
(* ===================================================================== *)

Lemma owned_in_grid g p :
  wf_grid g → owned g p →
  (0 ≤ st_i p < mx g ∧ 0 ≤ st_j p < my g ∧ 0 ≤ st_k p < mz g) ∧
  (mx g < 2 ^ 31 ∧ my g < 2 ^ 31 ∧ mz g < 2 ^ 31).
Proof. unfold wf_grid, owned. lia. Qed.

Lemma boundary_or_interior g p :
  wf_grid g → owned g p → boundary_node g p ∨ interior_node g p.
Proof.
  intros Hg Hp. destruct (owned_in_grid g p Hg Hp) as [? ?].
  unfold boundary_node, interior_node. lia.
Qed.

Lemma interior_not_boundary g p : interior_node g p → ¬ boundary_node g p.
Proof. unfold boundary_node, interior_node. lia. Qed.

Section Rhs.
Context {T : Type} {ops : PetscScalar T}.

Lemma on_boundary_spec g k j i :
  wf_grid g → owned g (Stencil k j i) →
  on_boundary g k j i = bool_decide (boundary_node g (Stencil k j i)).
Proof.
  intros Hg Hp. destruct (owned_in_grid _ _ Hg Hp) as [Hr Hm].
  simpl in Hr. unfold on_boundary, boundary_node. simpl.
  rewrite !u32_small by lia.
  apply eq_true_iff_eq.
  rewrite bool_decide_eq_true, !orb_true_iff, !Z.eqb_eq. tauto.
Qed.

Lemma source_test_spec g (c : ctx_t T) k j i :
  wf_grid g → owned g (Stencil k j i) → src_in_range c →
  (i =? u32 (isrc (src c))) && (j =? u32 (jsrc (src c)))
    && (k =? u32 (ksrc (src c)))
  = bool_decide (Stencil k j i = source_node c).
Proof.
  intros Hg Hp (Hi & Hj & Hk).
  destruct (owned_in_grid _ _ Hg Hp) as [Hr Hm]. simpl in Hr.
  apply eq_true_iff_eq.
  rewrite bool_decide_eq_true, !andb_true_iff, !Z.eqb_eq.
  unfold source_node, u32. split.
  - intros [[Ei Ej] Ek].
    assert (isrc (src c) = i ∧ jsrc (src c) = j ∧ ksrc (src c) = k)
      as (-> & -> & ->); [|done].
    repeat split.
    + destruct (decide (0 ≤ isrc (src c))).
      * rewrite Z.mod_small in Ei by lia. lia.
      * rewrite <- (Z.mod_add _ 1) in Ei by lia.
        rewrite Z.mod_small in Ei by lia. lia.
    + destruct (decide (0 ≤ jsrc (src c))).
      * rewrite Z.mod_small in Ej by lia. lia.
      * rewrite <- (Z.mod_add _ 1) in Ej by lia.
        rewrite Z.mod_small in Ej by lia. lia.
    + destruct (decide (0 ≤ ksrc (src c))).
      * rewrite Z.mod_small in Ek by lia. lia.
      * rewrite <- (Z.mod_add _ 1) in Ek by lia.
        rewrite Z.mod_small in Ek by lia. lia.
  - intros [= <- <- <-]. rewrite !Z.mod_small by lia. done.
Qed.

Lemma b_node_spec g (c : ctx_t T) dt2 k j i _b :
  wf_grid g → owned g (Stencil k j i) → src_in_range c →
  b_node g c dt2 (spacing (mx g)) (spacing (my g)) (spacing (mz g))
    k j i _b
  = vec_set _b k j i (b_value g c dt2 (Stencil k j i)).
Proof.
  intros Hg Hp Hc. unfold b_node, b_value.
  rewrite on_boundary_spec, (source_test_spec g) by done.
  destruct (decide (boundary_node g (Stencil k j i))) as [Hb|Hb].
  - by rewrite bool_decide_eq_true_2.
  - rewrite bool_decide_eq_false_2 by done.
    destruct (decide (Stencil k j i = source_node c)) as [Hs|Hs].
    + by rewrite bool_decide_eq_true_2.
    + by rewrite bool_decide_eq_false_2.
Qed.

Lemma vec_at_set (a : Vec T) k j i x p :
  vec_at (vec_set a k j i x) p
  = if decide (p = Stencil k j i) then x else vec_at a p.
Proof.
  unfold vec_at, vec_set. destruct p as [k' j' i']. simpl.
  destruct (decide (k' = k ∧ j' = j ∧ i' = i)) as [(-> & -> & ->)|Hne].
  - by rewrite decide_True.
  - rewrite decide_False; [done|]. intros [= -> -> ->]. tauto.
Qed.

(** The loop nest of [update_b_ux] ends, and sets every owned node, and
    only those, to its [b_value]. *)
Lemma fill_b_spec g (c : ctx_t T) dt2 b0 :
  wf_grid g → src_in_range c →
  ∃ b, fill_b g c dt2 b0 = Ok b ∧
       (∀ p, owned g p → vec_at b p = b_value g c dt2 p) ∧
       (∀ p, ¬ owned g p → vec_at b p = vec_at b0 p).
Proof.
  intros Hg Hc. unfold fill_b.
  pose proof Hg as (Gx & Gy & Gz).
  rewrite !u32_small by lia.
  destruct (nest_inv (zs g) (zs g + zm g) (ys g) (ys g + ym g)
              (xs g) (xs g + xm g)
              (λ k j i _b, Ok (b_node g c dt2 (spacing (mx g))
                                 (spacing (my g)) (spacing (mz g))
                                 k j i _b))
              (λ D b, ∀ p, (D p → vec_at b p = b_value g c dt2 p) ∧
                           (¬ D p → vec_at b p = vec_at b0 p)))
    with (s0 := b0) as (b & Hrun & Hb); try lia.
  - intros D D' s HD Hs p. rewrite <- HD. apply Hs.
  - intros k j i s Hk Hj Hi Hs. eexists. split; [done|].
    intros p. rewrite b_node_spec, vec_at_set; [| done | | done].
    2: { unfold owned; simpl; lia. }
    destruct (decide (p = Stencil k j i)) as [->|Hne].
    + split; [done|]. intros Hn. exfalso. apply Hn.
      unfold passed. simpl. lia.
    + destruct (Hs p) as [Hs1 Hs2].
      assert (passed (zs g) (zs g + zm g) (ys g) (ys g + ym g) (xs g)
                (xs g + xm g) k j (i + 1) p
              ↔ passed (zs g) (zs g + zm g) (ys g) (ys g + ym g) (xs g)
                  (xs g + xm g) k j i p) as ->; [|done].
      destruct p as [k' j' i']. unfold passed. simpl.
      assert (¬ (k' = k ∧ j' = j ∧ i' = i)) by (intros (-> & -> & ->); done).
      lia.
  - intros p. split; [tauto|done].
  - exists b. split; [exact Hrun|]. split.
    + intros p Hp. apply Hb. unfold owned in Hp. lia.
    + intros p Hp. apply Hb. unfold owned in Hp. lia.
Qed.
End Rhs.

(* ===================================================================== *)
(** ** The rows of the operator *)
(* ===================================================================== *)

Section Rows.
Context {T : Type} {ops : PetscScalar T}.

Lemma arr_write_Ok {A : Type} (a : list (option A)) (n : nat) (x : A) :
  (n < length a)%nat →
  arr_write a (Z.of_nat n) x = Ok (<[n := Some x]> a).
Proof.
  intros Hn. unfold arr_write.
  rewrite decide_True by lia. by rewrite Nat2Z.id.
Qed.

Lemma arr_write_0 {A : Type} (a : list (option A)) (x : A) :
  (0 < length a)%nat → arr_write a 0 x = Ok (<[0%nat := Some x]> a).
Proof. apply (arr_write_Ok a 0). Qed.

Lemma arr_read_Ok {A : Type} (a : list (option A)) (n : nat) (x : A) :
  a !! n = Some (Some x) → arr_read a (Z.of_nat n) = Ok x.
Proof.
  intros Hn. unfold arr_read.
  rewrite decide_True by lia. by rewrite Nat2Z.id, Hn.
Qed.

Lemma take_snoc_insert {A : Type} (a : list A) (n : nat) (x : A) :
  (n < length a)%nat → take (S n) (<[n := x]> a) = take n a ++ [x].
Proof.
  intros Hn.
  rewrite (take_S_r _ _ x) by (by apply list_lookup_insert_eq).
  by rewrite take_insert_ge.
Qed.

(** [idxn[n] = col; v[n] = x; n++] appends a column to the row when a slot
    is left. *)
Lemma add_column_spec (r : stencil_row T) l col x :
  row_holds r l → (length l < 7)%nat →
  ∃ r', add_column col x r = Ok r' ∧ row_holds r' (l ++ [(col, x)]).
Proof.
  intros (Hn & Hv & Hi & Hti & Htv) Hl. unfold add_column.
  rewrite Hn, !arr_write_Ok by lia.
  eexists. split; [reflexivity|].
  unfold row_holds. simpl.
  rewrite !length_app, !length_insert, !fmap_app. simpl.
  replace (length l + 1)%nat with (S (length l)) by lia.
  rewrite !take_snoc_insert by lia.
  rewrite Hti, Htv. repeat split; try done. lia.
Qed.

Lemma cond_add_column_spec (r : stencil_row T) l (b : bool) col x e :
  row_holds r l → (length l < 7)%nat →
  e = (if b then [(col, x)] else []) →
  ∃ r', (if b then add_column col x r else Ok r) = Ok r'
        ∧ row_holds r' (l ++ e).
Proof.
  intros Hr Hl ->. destruct b.
  - by apply add_column_spec.
  - exists r. by rewrite app_nil_r.
Qed.

(** [v[0] += y] on a row whose first value is [x]. *)
Lemma bump_diagonal_spec (r : stencil_row T) p x l y :
  row_holds r ((p, x) :: l) →
  ∃ v, arr_read (row_v r) 0 = Ok x ∧
       arr_write (row_v r) 0 (x [+] y) = Ok v ∧
       row_holds {| row_n := row_n r; row_v := v; row_idxn := row_idxn r |}
                 ((p, x [+] y) :: l).
Proof.
  intros (Hn & Hv & Hi & Hti & Htv).
  assert (row_v r !! 0%nat = Some (Some x)) as H0.
  { rewrite <- (lookup_take_lt _ (length ((p, x) :: l))) by (simpl; lia).
    by rewrite Htv. }
  exists (<[0%nat := Some (x [+] y)]> (row_v r)).
  split; [by apply (arr_read_Ok _ 0)|].
  split; [apply (arr_write_Ok _ 0); lia|].
  unfold row_holds. simpl in *.
  rewrite length_insert. repeat split; try done.
  destruct (row_v r) as [|v0 v']; [done|].
  simpl in *. by injection Htv as _ ->.
Qed.
End Rows.

Section FillRow.
Context {T : Type} {ops : PetscScalar T}.

Lemma coupling_entry_if g (c : ctx_t T) p a d (b : bool) col x :
  (b = true ↔ 0 < coord a p + d < count a g - 1) →
  col = shift a d p → x = coupling g c p a →
  coupling_entry g c p a d = if b then [(col, x)] else [].
Proof.
  intros Hb -> ->. unfold coupling_entry.
  destruct b; case_decide; try done.
  - exfalso. tauto.
  - exfalso. assert (false = true) by tauto. done.
Qed.

Lemma coupling_entry_length g (c : ctx_t T) p a d :
  (length (coupling_entry g c p a d) ≤ 1)%nat.
Proof. unfold coupling_entry. case_decide; simpl; lia. Qed.

Lemma first_row_holds (v : list (option T)) idxn p x :
  length v = 7%nat → length idxn = 7%nat →
  row_holds {| row_n := 1; row_v := <[0%nat := Some x]> v;
               row_idxn := <[0%nat := Some p]> idxn |} [(p, x)].
Proof.
  intros Hv Hi. unfold row_holds. simpl.
  rewrite !length_insert.
  destruct v; [done|]. destruct idxn; done.
Qed.

(** One conditional coupling of [fill_row]. *)
Ltac coupling_step g c p a d Hr r' Hr' :=
  lazymatch goal with
  | |- context [if ?b then add_column ?col ?x ?r else Ok ?r] =>
      let Heq := fresh "Heq" in
      destruct (cond_add_column_spec r _ b col x
                  (coupling_entry g c p a d) Hr)
        as (r' & Heq & Hr');
      [ | apply coupling_entry_if | rewrite Heq, res_bind_Ok ]
  end.

(** The row built by [fill_row] at an owned node holds [row_entries]. *)
Lemma fill_row_spec g (c : ctx_t T) k j i v idxn :
  wf_grid g → owned g (Stencil k j i) →
  length v = 7%nat → length idxn = 7%nat →
  ∃ r, fill_row g c (dt (time c) [*] dt (time c))
         (spacing (mx g)) (spacing (my g)) (spacing (mz g))
         (ratio g AxisX) (ratio g AxisY) (ratio g AxisZ) k j i v idxn
       = Ok r
       ∧ row_holds r (row_entries g c (Stencil k j i)).
Proof.
  intros Hg Hp Hv Hi.
  destruct (owned_in_grid _ _ Hg Hp) as [Hr Hm]. simpl in Hr.
  unfold fill_row, row_entries.
  rewrite on_boundary_spec by done.
  rewrite !(i32_small k), !(i32_small j), !(i32_small i) by lia.
  rewrite !arr_write_0 by lia. rewrite !res_bind_Ok.
  destruct (decide (boundary_node g (Stencil k j i))) as [Hb|Hb].
  - rewrite bool_decide_eq_true_2 by done.
    rewrite ?arr_write_0 by lia. rewrite ?res_bind_Ok.
    eexists. split; [reflexivity|]. by apply first_row_holds.
  - rewrite bool_decide_eq_false_2 by done.
    rewrite ?arr_write_0 by lia. rewrite ?res_bind_Ok.
    assert (interior_node g (Stencil k j i)) as (Ii & Ij & Ik).
    { destruct (boundary_or_interior _ _ Hg Hp); tauto. }
    simpl in Ii, Ij, Ik.
    match goal with
    | |- context [Ok {| row_n := 1; row_v := <[_ := Some ?x]> v |}] =>
        pose proof (first_row_holds v idxn (Stencil k j i) x Hv Hi) as H0
    end.
    pose proof (coupling_entry_length g c (Stencil k j i)) as Hlen.
    coupling_step g c (Stencil k j i) AxisX (-1) H0 r1 H1;
      [simpl; lia
      |simpl; rewrite u32_small by lia; rewrite Z.gtb_lt; lia
      |simpl; rewrite u32_small, i32_small by lia; reflexivity
      |reflexivity| ].
    coupling_step g c (Stencil k j i) AxisX 1 H1 r2 H2;
      [rewrite length_app; specialize (Hlen AxisX (-1)); simpl; lia
      |simpl; rewrite !u32_small by lia; rewrite Z.ltb_lt; lia
      |simpl; rewrite u32_small, i32_small by lia; reflexivity
      |reflexivity| ].
    coupling_step g c (Stencil k j i) AxisY (-1) H2 r3 H3;
      [rewrite !length_app; pose proof (Hlen AxisX (-1));
       pose proof (Hlen AxisX 1); simpl; lia
      |simpl; rewrite u32_small by lia; rewrite Z.gtb_lt; lia
      |simpl; rewrite u32_small, i32_small by lia; reflexivity
      |reflexivity| ].
    coupling_step g c (Stencil k j i) AxisY 1 H3 r4 H4;
      [rewrite !length_app; pose proof (Hlen AxisX (-1));
       pose proof (Hlen AxisX 1); pose proof (Hlen AxisY (-1));
       simpl; lia
      |simpl; rewrite !u32_small by lia; rewrite Z.ltb_lt; lia
      |simpl; rewrite u32_small, i32_small by lia; reflexivity
      |reflexivity| ].
    coupling_step g c (Stencil k j i) AxisZ (-1) H4 r5 H5;
      [rewrite !length_app; pose proof (Hlen AxisX (-1));
       pose proof (Hlen AxisX 1); pose proof (Hlen AxisY (-1));
       pose proof (Hlen AxisY 1); simpl; lia
      |simpl; rewrite u32_small by lia; rewrite Z.gtb_lt; lia
      |simpl; rewrite u32_small, i32_small by lia; reflexivity
      |reflexivity| ].
    coupling_step g c (Stencil k j i) AxisZ 1 H5 r6 H6;
      [rewrite !length_app; pose proof (Hlen AxisX (-1));
       pose proof (Hlen AxisX 1); pose proof (Hlen AxisY (-1));
       pose proof (Hlen AxisY 1); pose proof (Hlen AxisZ (-1));
       simpl; lia
      |simpl; rewrite !u32_small by lia; rewrite Z.ltb_lt; lia
      |simpl; rewrite u32_small, i32_small by lia; reflexivity
      |reflexivity| ].
    rewrite <- !app_assoc in H6. simpl in H6.
    match goal with
    | |- context [arr_write (row_v r6) 0 (_ [+] ?y)] =>
        destruct (bump_diagonal_spec r6 _ _ _ y H6) as (v6 & Hrd & Hwr & H7)
    end.
    rewrite Hrd, res_bind_Ok, Hwr, res_bind_Ok.
    eexists. split; [reflexivity|]. exact H7.
Qed.
End FillRow.

Section Assembly.
Context {T : Type} {ops : PetscScalar T}.

Lemma coupling_entry_elem g (c : ctx_t T) p a d q x :
  (q, x) ∈ coupling_entry g c p a d ↔
  0 < coord a p + d < count a g - 1 ∧ q = shift a d p
  ∧ x = coupling g c p a.
Proof.
  unfold coupling_entry. case_decide.
  - rewrite list_elem_of_singleton. split.
    + by intros [= -> ->].
    + by intros (_ & -> & ->).
  - rewrite elem_of_nil. tauto.
Qed.

(** The columns and values of the row of a node. *)
Lemma row_entries_elem g (c : ctx_t T) p q x :
  (q, x) ∈ row_entries g c p ↔
  (boundary_node g p ∧ q = p ∧ x = lit 1 0) ∨
  (¬ boundary_node g p ∧
   ((q = p ∧ x = diagonal g c p) ∨
    ∃ a d, (d = 1 ∨ d = -1) ∧ 0 < coord a p + d < count a g - 1
           ∧ q = shift a d p ∧ x = coupling g c p a)).
Proof.
  unfold row_entries. case_decide as Hb.
  - rewrite list_elem_of_singleton. split.
    + intros [= -> ->]. by left.
    + intros [(_ & -> & ->)|[? _]]; done.
  - rewrite elem_of_cons, !elem_of_app, !coupling_entry_elem.
    split.
    + intros [[= -> ->]|Hc]; right; (split; [done|]); [by left|].
      right. destruct Hc as [?|[?|[?|[?|[?|?]]]]]; eauto 10.
    + intros [[? _]|[_ [[-> ->]|(a & d & [->| ->] & ?)]]];
        [done|by left|right..]; destruct a; tauto.
Qed.

Lemma row_entries_NoDup g (c : ctx_t T) p :
  NoDup (row_entries g c p).*1.
Proof.
  unfold row_entries, coupling_entry. destruct p as [k j i].
  repeat case_decide; simpl;
    repeat (apply NoDup_cons; split;
            [rewrite ?elem_of_cons, elem_of_nil; intros Hin;
             repeat (destruct Hin as [Hin|Hin]); try done;
             injection Hin; intros; lia|]);
    apply NoDup_nil_2.
Qed.

Lemma row_entries_in_grid g (c : ctx_t T) p q x :
  wf_grid g → owned g p → (q, x) ∈ row_entries g c p →
  in_grid g q = true.
Proof.
  intros Hg Hp Hq. destruct (owned_in_grid _ _ Hg Hp) as [Hr _].
  unfold in_grid. rewrite bool_decide_eq_true.
  apply row_entries_elem in Hq
    as [(_ & -> & _)|(_ & [[-> _]|(a & d & Hd & Ha & -> & _)])];
    [done|done|].
  destruct a; simpl in *; lia.
Qed.

Lemma set_row_snoc (idxm : MatStencil) (A : Mat T)
    (l : list (MatStencil * T)) (e : MatStencil * T) :
  set_row idxm A (l ++ [e]) = <[(idxm, e.1) := e.2]> (set_row idxm A l).
Proof. unfold set_row. by rewrite foldl_app. Qed.

(** What a row set all at once reads as, when its columns differ. *)
Lemma set_row_lookup (idxm : MatStencil) (A : Mat T)
    (l : list (MatStencil * T)) (p q : MatStencil) (x : T) :
  NoDup l.*1 →
  set_row idxm A l !! (p, q) = Some x ↔
  (p = idxm ∧ (q, x) ∈ l) ∨
  (¬ (p = idxm ∧ q ∈ l.*1) ∧ A !! (p, q) = Some x).
Proof.
  induction l as [|[q' x'] l IH] using rev_ind; intros Hnd.
  - unfold set_row. simpl. rewrite !elem_of_nil. tauto.
  - rewrite fmap_app in Hnd. apply NoDup_app in Hnd as (Hnd & Hne & _).
    specialize (IH Hnd).
    assert (q' ∉ l.*1) as Hq'.
    { intros Hin. apply (Hne q' Hin). simpl. by left. }
    rewrite set_row_snoc, lookup_insert.
    rewrite fmap_app, !elem_of_app. simpl.
    rewrite !list_elem_of_singleton.
    case_decide as Heq.
    + injection Heq as <- <-. split.
      * intros [= <-]. left. split; [done|]. by right.
      * intros [[_ [Hin|[= ->]]]|[Hn _]]; [|done|exfalso; apply Hn; auto].
        exfalso. apply Hq'. apply list_elem_of_fmap. by exists (q', x).
    + rewrite IH. split.
      * intros [[-> Hin]|[Hn HA]]; [left; auto|right].
        split; [|done]. intros [-> [Hin| ->]]; [auto|done].
      * intros [[-> [Hin|[= -> ->]]]|[Hn HA]]; [left; auto|done|right].
        split; [|done]. intros [-> Hin]. apply Hn. auto.
Qed.

(** [MatSetValuesStencil] on a row that holds [l]: the values are set and
    no index is out of range. *)
Lemma MatSetValuesStencil_spec (g : DMDALocalInfo) (A : Mat T)
    (idxm : MatStencil)
    (r : stencil_row T) (l : list (MatStencil * T)) :
  row_holds r l → in_grid g idxm = true →
  (∀ e, e ∈ l → in_grid g e.1 = true) →
  MatSetValuesStencil g A idxm (row_n r) (row_idxn r) (row_v r)
  = Ok (set_row idxm A l).
Proof.
  intros (Hn & Hv & Hi & Hti & Htv) Hm Hl. unfold MatSetValuesStencil.
  destruct (for_range_inv
              (λ n A', ∃ m : nat, n = Z.of_nat m
                                  ∧ A' = set_row idxm A (take m l))
              (λ col A,
                 q ← arr_read (row_idxn r) col;
                 x ← arr_read (row_v r) col;
                 if in_grid g idxm && in_grid g q
                 then Ok (<[(idxm, q) := x]> A)
                 else Err (PetscError PETSC_ERR_ARG_OUTOFRANGE))
              0 (row_n r) A) as (A' & Hrun & (m & Hm' & ->)).
  - lia.
  - exists 0%nat. by rewrite take_0.
  - intros y A1 Hy (m & -> & ->).
    destruct (lookup_lt_is_Some_2 l m) as [e He]; [lia|].
    assert (row_idxn r !! m = Some (Some e.1)) as Hri.
    { rewrite <- (lookup_take_lt _ (length l)) by lia.
      by rewrite Hti, list_lookup_fmap, He. }
    assert (row_v r !! m = Some (Some e.2)) as Hrv.
    { rewrite <- (lookup_take_lt _ (length l)) by lia.
      by rewrite Htv, list_lookup_fmap, He. }
    rewrite (arr_read_Ok _ m _ Hri), res_bind_Ok.
    rewrite (arr_read_Ok _ m _ Hrv), res_bind_Ok.
    rewrite Hm, (Hl e) by (by eapply list_elem_of_lookup_2). simpl.
    eexists. split; [reflexivity|].
    exists (S m). split; [lia|].
    by rewrite (take_S_r _ _ e), set_row_snoc.
  - rewrite Hrun. f_equal. f_equal. apply take_ge. lia.
Qed.
End Assembly.

Section Operator.
Context {T : Type} {ops : PetscScalar T}.

(** [compute_A_ux] on a fresh matrix returns without error, and the
    matrix it returns holds the rows of the owned nodes and nothing else. *)
Lemma compute_A_ux_spec (g : DMDALocalInfo) (c : ctx_t T) :
  wf_grid g →
  ∃ A : Mat T, compute_A_ux g ∅ c = Ok A ∧ assembled g c A.
Proof.
  intros Hg. pose proof Hg as (Gx & Gy & Gz).
  destruct (nest_inv (zs g) (zs g + zm g) (ys g) (ys g + ym g)
              (xs g) (xs g + xm g)
              (λ k j i '(A, v, idxn),
                 r ← fill_row g c (dt (time c) [*] dt (time c))
                       (spacing (mx g)) (spacing (my g)) (spacing (mz g))
                       (ratio g AxisX) (ratio g AxisY) (ratio g AxisZ)
                       k j i v idxn;
                 A ← MatSetValuesStencil g A
                       (Stencil (i32 k) (i32 j) (i32 i))
                       (row_n r) (row_idxn r) (row_v r);
                 Ok (A, row_v r, row_idxn r))
              (λ D '(A, v, idxn),
                 length v = 7%nat ∧ length idxn = 7%nat ∧
                 ∀ p q x, (A : Mat T) !! (p, q) = Some x ↔
                          D p ∧ (q, x) ∈ row_entries g c p))
    with (s0 := (∅ : Mat T, replicate 7 (@None T),
                  replicate 7 (@None MatStencil)))
    as ([[A v] idxn] & Hrun & (_ & _ & HA)); try lia.
  - intros D D' [[A v] idxn] HD (Hv & Hi & HA).
    split; [done|]. split; [done|].
    intros p q x. by rewrite HA, HD.
  - intros k j i [[A v] idxn] Hk Hj Hi (Hv & Hl & HA).
    assert (owned g (Stencil k j i)) as Hp by (unfold owned; simpl; lia).
    destruct (owned_in_grid _ _ Hg Hp) as [Hr Hm]. simpl in Hr.
    destruct (fill_row_spec g c k j i v idxn Hg Hp Hv Hl)
      as (r & Hfill & Hr').
    rewrite Hfill, res_bind_Ok, !i32_small by lia.
    rewrite (MatSetValuesStencil_spec g A _ r _ Hr'), res_bind_Ok.
    2: { unfold in_grid. rewrite bool_decide_eq_true. simpl. lia. }
    2: { intros [q x] Hq. by eapply row_entries_in_grid. }
    eexists. split; [reflexivity|].
    destruct Hr' as (_ & Hv' & Hl' & _).
    split; [done|]. split; [done|]. intros p q x. split.
    + rewrite set_row_lookup by apply row_entries_NoDup.
      intros [[-> Hin]|[Hn Hold]].
      * split; [|done]. unfold passed. simpl. lia.
      * apply HA in Hold as [Hpass Hin]. split; [|done].
        revert Hpass. unfold passed. lia.
    + intros [Hpass Hin].
      rewrite set_row_lookup by apply row_entries_NoDup.
      destruct (decide (p = Stencil k j i)) as [->|Hne]; [by left|].
      right. split; [tauto|]. apply HA. split; [|done].
      destruct p as [k' j' i']. revert Hpass. unfold passed. simpl.
      assert (¬ (k' = k ∧ j' = j ∧ i' = i)) by (intros (-> & -> & ->); done).
      lia.
  - split; [done|]. split; [done|].
    intros p q x. rewrite lookup_empty. split; [done|tauto].
  - exists A. split.
    + unfold compute_A_ux. rewrite !u32_small by lia.
      match goal with
      | |- (?m ≫= _) = _ =>
          replace m with (Ok (A, v, idxn)) by (symmetry; exact Hrun)
      end.
      reflexivity.
    + intros p q x. rewrite HA. unfold owned. split.
      * intros [? ?]. split; [lia|done].
      * intros [? ?]. split; [lia|done].
Qed.
End Operator.

(* ===================================================================== *)
(** ** The count of a row stays within the local arrays *)
(* ===================================================================== *)

Section RowCount.
Context {T : Type} {ops : PetscScalar T}.

Lemma cond_add_column_count (r : stencil_row T) l (b : bool) col x :
  row_holds r l → Z.of_nat (length l) < 7 →
  ∃ r' l', (if b then add_column col x r else Ok r) = Ok r'
           ∧ row_holds r' l'
           ∧ Z.of_nat (length l') = Z.of_nat (length l) + Z.b2z b.
Proof.
  intros Hr Hl.
  destruct (cond_add_column_spec r l b col x _ Hr ltac:(lia) eq_refl)
    as (r' & Heq & Hr').
  exists r', (l ++ (if b then [(col, x)] else [])).
  split; [done|]. split; [done|].
  rewrite length_app. destruct b; simpl; lia.
Qed.

Lemma b2z_range (b : bool) : 0 ≤ Z.b2z b ≤ 1.
Proof. destruct b; simpl; lia. Qed.

Ltac count_step Hr Hl :=
  lazymatch goal with
  | |- context [if ?b then add_column ?col ?x ?r else Ok ?r] =>
      let Heq := fresh "Heq" in
      let r' := fresh "r" in
      let l' := fresh "l" in
      let Hr' := fresh "Hr" in
      let Hl' := fresh "Hl" in
      pose proof (b2z_range b);
      destruct (cond_add_column_count r _ b col x Hr ltac:(lia))
        as (r' & l' & Heq & Hr' & Hl');
      rewrite Heq, res_bind_Ok; clear Heq;
      rewrite Hl in Hl'; clear Hl; clear Hr;
      rename Hr' into Hr; rename Hl' into Hl
  end.

(** C10. Whatever the node, the grid and the earlier contents of the two
    local arrays of 7 slots, building a row ends without a write or a read
    outside the arrays (which would be the error [ArrayBounds]); the count
    [n] it leaves lies between 1 and 7: it is 1 for a node that passes the
    boundary test and otherwise 1 for the diagonal plus one for each of
    the six neighbour tests that holds. *)
Theorem C10_row_count_within_arrays
    (g : DMDALocalInfo) (c : ctx_t T)
    (dt2 hx hy hz hyhzdhx hxhzdhy hxhydhz : T) (k j i : Z)
    (v : list (option T)) (idxn : list (option MatStencil)) :
  length v = 7%nat → length idxn = 7%nat →
  ∃ r, fill_row g c dt2 hx hy hz hyhzdhx hxhzdhy hxhydhz k j i v idxn
       = Ok r
       ∧ 1 ≤ row_n r ≤ 7
       ∧ length (row_v r) = 7%nat ∧ length (row_idxn r) = 7%nat
       ∧ row_n r =
           if on_boundary g k j i then 1
           else 1 + Z.b2z (u32 (i - 1) >? 0)
                  + Z.b2z (u32 (i + 1) <? u32 (mx g - 1))
                  + Z.b2z (u32 (j - 1) >? 0)
                  + Z.b2z (u32 (j + 1) <? u32 (my g - 1))
                  + Z.b2z (u32 (k - 1) >? 0)
                  + Z.b2z (u32 (k + 1) <? u32 (mz g - 1)).
Proof.
  intros Hv Hi. unfold fill_row.
  rewrite !arr_write_0 by lia. rewrite !res_bind_Ok.
  destruct (on_boundary g k j i).
  - rewrite ?arr_write_0 by lia. rewrite ?res_bind_Ok.
    eexists. split; [reflexivity|]. simpl.
    rewrite !length_insert. repeat split; try done; lia.
  - rewrite ?arr_write_0 by lia. rewrite ?res_bind_Ok.
    match goal with
    | |- context [Ok {| row_n := 1; row_v := <[_ := Some ?x]> v;
                        row_idxn := <[_ := Some ?p]> idxn |}] =>
        pose proof (first_row_holds v idxn p x Hv Hi) as Hr
    end.
    assert (Z.of_nat (length [(Stencil (i32 k) (i32 j) (i32 i),
              c11 (model c) k j i [*] dt2 [/] rho (model c) k j i
              [*] lit 2 0 [*] (hyhzdhx [+] hxhzdhy [+] hxhydhz))]) = 1)
      as Hl by done.
    do 6 count_step Hr Hl.
    lazymatch type of Hr with
    | row_holds _ ?l0 => destruct l0 as [|[p x] l']; [simpl in Hl; lia|]
    end.
    match goal with
    | |- context [arr_write (row_v ?r) 0 (_ [+] ?y)] =>
        destruct (bump_diagonal_spec r p x l' y Hr) as (v6 & Hrd & Hwr & H7)
    end.
    rewrite Hrd, res_bind_Ok, Hwr, res_bind_Ok.
    eexists. split; [reflexivity|].
    destruct H7 as (Hn & Hv7 & Hi7 & _). simpl in *.
    repeat split; try done; lia.
Qed.
End RowCount.

(* ===================================================================== *)
(** ** Reading the assembled operator *)
(* ===================================================================== *)

Lemma shift_neq (a : axis) (d : Z) (p : MatStencil) :
  d ≠ 0 → shift a d p ≠ p.
Proof. destruct p, a; simpl; intros Hd [= ?]; lia. Qed.

Lemma shift_inj (a a' : axis) (d d' : Z) (p : MatStencil) :
  d ≠ 0 → d' ≠ 0 → shift a d p = shift a' d' p → a = a' ∧ d = d'.
Proof.
  destruct p, a, a'; simpl; intros Hd Hd' [= ?]; try lia; split; (done || lia).
Qed.

Lemma coord_shift (a : axis) (d : Z) (p : MatStencil) :
  coord a (shift a d p) = coord a p + d.
Proof. by destruct a. Qed.

Section ReadOperator.
Context {T : Type} {ops : PetscScalar T}.
Variables (g : DMDALocalInfo) (c : ctx_t T) (A : Mat T).
Hypothesis HA : assembled g c A.

Lemma assembled_None (p q : MatStencil) :
  (∀ x, (q, x) ∉ row_entries g c p) → A !! (p, q) = None.
Proof using HA.
  intros Hq. destruct (A !! (p, q)) as [x|] eqn:E; [|done].
  apply HA in E as [_ E]. by apply Hq in E.
Qed.

(** The row of a boundary node. *)
Lemma assembled_boundary_row (p q : MatStencil) :
  owned g p → boundary_node g p →
  A !! (p, q) = if decide (q = p) then Some (lit 1 0) else None.
Proof using HA.
  intros Hp Hb. case_decide as Hq.
  - subst q. apply HA. split; [done|].
    apply row_entries_elem. left. done.
  - apply assembled_None. intros x Hx.
    apply row_entries_elem in Hx as [(_ & ? & _)|[? _]]; done.
Qed.

(** The diagonal of an interior node. *)
Lemma assembled_diagonal (p : MatStencil) :
  owned g p → interior_node g p →
  A !! (p, p) = Some (diagonal g c p).
Proof using HA.
  intros Hp Hi. apply HA. split; [done|].
  apply row_entries_elem. right.
  split; [by apply interior_not_boundary|]. by left.
Qed.

(** The couplings of an interior node. *)
Lemma assembled_coupling (p : MatStencil) (a : axis) (d : Z) :
  owned g p → interior_node g p → d = 1 ∨ d = -1 →
  A !! (p, shift a d p) =
    if decide (0 < coord a p + d < count a g - 1)
    then Some (coupling g c p a) else None.
Proof using HA.
  intros Hp Hi Hd. case_decide as Hc.
  - apply HA. split; [done|]. apply row_entries_elem. right.
    split; [by apply interior_not_boundary|]. right.
    exists a, d. done.
  - apply assembled_None. intros x Hx.
    apply row_entries_elem in Hx
      as [(Hb & _)|(_ & [[Hq _]|(a' & d' & Hd' & Hc' & Hq & _)])].
    + by apply interior_not_boundary in Hi.
    + apply shift_neq in Hq; [done|lia].
    + apply shift_inj in Hq as [-> ->]; [done|lia|lia].
Qed.

(** Two interior face neighbours are coupled in both directions: an
    interior index is strictly inside the grid, so neither test of
    [compute_A_ux] drops the coupling. *)
Lemma interior_neighbours_coupled (p : MatStencil) (a : axis) (d : Z) :
  owned g p → owned g (shift a d p) →
  interior_node g p → interior_node g (shift a d p) → d = 1 ∨ d = -1 →
  A !! (p, shift a d p) = Some (coupling g c p a) ∧
  A !! (shift a d p, p) = Some (coupling g c (shift a d p) a).
Proof using HA.
  intros Hp Hq Ip Iq Hd.
  assert (p = shift a (- d) (shift a d p)) as Hback.
  { destruct p, a; simpl; f_equal; lia. }
  pose proof (assembled_coupling (shift a d p) a (- d) Hq Iq ltac:(lia))
    as Hqp.
  rewrite <- Hback in Hqp.
  rewrite Hqp, (assembled_coupling p a d Hp Ip Hd).
  rewrite coord_shift.
  assert (0 < coord a p + d < count a g - 1) as Hc.
  { rewrite <- coord_shift. destruct a; apply Iq. }
  assert (0 < coord a p + d + - d < count a g - 1) as Hc'.
  { replace (coord a p + d + - d) with (coord a p) by lia.
    destruct a; apply Ip. }
  by rewrite !decide_True.
Qed.

(** An interior row holds nothing but the diagonal and couplings. *)
Lemma assembled_interior_inv (p q : MatStencil) (x : T) :
  owned g p → interior_node g p → A !! (p, q) = Some x →
  (q = p ∧ x = diagonal g c p) ∨
  ∃ a d, (d = 1 ∨ d = -1) ∧ 0 < coord a p + d < count a g - 1
         ∧ q = shift a d p ∧ x = coupling g c p a.
Proof using HA.
  intros Hp Hi Hx. apply HA in Hx as [_ Hx].
  apply row_entries_elem in Hx as [(Hb & _)|(_ & Hx)]; [|done].
  by apply interior_not_boundary in Hi.
Qed.
End ReadOperator.

(* ===================================================================== *)
(** ** The stencil of the operator *)
(* ===================================================================== *)

Section Stencil.
Context {T : Type} {ops : PetscScalar T}.

(** C3. In the operator assembled by [compute_A_ux] (an entry is present
    when the assembly has set it), for every interior node [p] and each of
    its six face neighbours [shift a d p], the
    coupling entry is present exactly when the index of the neighbour
    along the axis of the shift is strictly above 0 and strictly below the
    node count minus 1; a neighbour with this index at 0 or at the node
    count minus 1 gets no entry. *)
Theorem C3_coupling_iff_neighbour_strictly_inside
    (g : DMDALocalInfo) (c : ctx_t T) :
  wf_grid g →
  ∃ A : Mat T, compute_A_ux g ∅ c = Ok A ∧
    ∀ p a d, owned g p → interior_node g p → d = 1 ∨ d = -1 →
      (is_Some (A !! (p, shift a d p)) ↔
         0 < coord a (shift a d p) < count a g - 1) ∧
      (coord a (shift a d p) = 0 ∨ coord a (shift a d p) = count a g - 1 →
         A !! (p, shift a d p) = None).
Proof.
  intros Hg. destruct (compute_A_ux_spec g c Hg) as (A & Hrun & HA).
  exists A. split; [done|]. intros p a d Hp Hi Hd.
  rewrite (assembled_coupling g c A HA p a d Hp Hi Hd), coord_shift.
  case_decide as Hc; split.
  - split; [done|]. by eexists.
  - lia.
  - split; [by intros [? ?]|done].
  - done.
Qed.

(** C9. With the constant material vectors that [main] sets up, the
    operator is symmetric on face neighbours far from the boundary: for
    interior nodes [p] and [q = shift a d p] all of whose neighbours lie
    strictly inside the grid, the entries at (p, q) and (q, p) are both
    present and equal. *)
Theorem C9_interior_symmetry
    (g : DMDALocalInfo) (w : wfield T) (ctx : ctx_t T) :
  wf_grid g →
  ∃ A : Mat T, compute_A_ux g ∅ (main_setup g w ctx) = Ok A ∧
    ∀ p q a d, owned g p → owned g q →
      interior_node g p → interior_node g q →
      far_from_boundary g p → far_from_boundary g q →
      d = 1 ∨ d = -1 → q = shift a d p →
      is_Some (A !! (p, q)) ∧ A !! (p, q) = A !! (q, p).
Proof.
  intros Hg.
  destruct (compute_A_ux_spec g (main_setup g w ctx) Hg)
    as (A & Hrun & HA).
  exists A. split; [done|].
  intros p q a d Hp Hq Ip Iq _ _ Hd ->.
  destruct (interior_neighbours_coupled g _ A HA p a d Hp Hq Ip Iq Hd)
    as [Hpq Hqp].
  rewrite Hpq, Hqp. split; [by eexists|]. reflexivity.
Qed.
End Stencil.

(* ===================================================================== *)
(** ** Values over the reals *)
(* ===================================================================== *)

Lemma lit_R (m : Z) : lit m 0 = IZR m.
Proof. simpl. unfold Rdiv. rewrite Rinv_1. apply Rmult_1_r. Qed.

Section RealOperator.
Local Open Scope R_scope.

(** C4. In the operator assembled by [compute_A_ux], the row of every
    boundary node (an index at 0 or at the node count minus 1) holds one
    entry only, on the diagonal, and its value is 1; read as a matrix,
    the row is nonzero at the diagonal and nowhere else. *)
Theorem C4_boundary_row_is_identity (g : DMDALocalInfo) (c : ctx_t R) :
  wf_grid g →
  ∃ A : Mat R, compute_A_ux g ∅ c = Ok A ∧
    ∀ p, owned g p → boundary_node g p →
      A !! (p, p) = Some 1 ∧
      (∀ q, q ≠ p → A !! (p, q) = None) ∧
      (∀ q, mat_get A p q ≠ 0 ↔ q = p).
Proof.
  intros Hg. destruct (compute_A_ux_spec g c Hg) as (A & Hrun & HA).
  exists A. split; [done|]. intros p Hp Hb.
  pose proof (assembled_boundary_row g c A HA p) as Hrow.
  split; [|split].
  - rewrite Hrow, decide_True, lit_R by done. done.
  - intros q Hq. by rewrite Hrow, decide_False.
  - intros q. unfold mat_get. rewrite Hrow by done.
    case_decide as Hq; cbn [default from_option]; rewrite ?lit_R;
      unfold Datatypes.id.
    + split; [done|]. intros _. lra.
    + split; [|done]. intros Hne. by destruct Hne.
Qed.

(** C2 (amended). In the operator assembled by [compute_A_ux], the row of
    every interior node has the diagonal value
    coeff dt^2 / density 2 (hy hz / hx + hx hz / hy + hx hy / hz)
    + 2 hx hy hz, and every other entry of the row is a coupling to a
    face neighbour, of value - coeff dt^2 / density times the ratio of the
    axis of the neighbour; here hx = 1 / (mx - 1), hy = 1 / (my - 1) and
    hz = 1 / (mz - 1) are the spacings that [compute_A_ux] derives from the
    node counts, not the spacings [dx], [dy], [dz] of the grid model. *)
Theorem C2_interior_row_values (g : DMDALocalInfo) (c : ctx_t R) :
  wf_grid g →
  ∃ A : Mat R, compute_A_ux g ∅ c = Ok A ∧
    ∀ p, owned g p → interior_node g p →
      let hx := 1 / IZR (mx g - 1) in
      let hy := 1 / IZR (my g - 1) in
      let hz := 1 / IZR (mz g - 1) in
      let coeff := vec_at (c11 (model c)) p in
      let density := vec_at (rho (model c)) p in
      let dt := dt (time c) in
      A !! (p, p) =
        Some (coeff * (dt * dt) / density * 2
              * (hy * hz / hx + hx * hz / hy + hx * hy / hz)
              + 2 * hx * hy * hz) ∧
      ∀ q x, q ≠ p → A !! (p, q) = Some x →
        ∃ a d, (d = 1 ∨ d = -1)%Z ∧ q = shift a d p ∧
          x = - coeff * (dt * dt) / density
              * match a with
                | AxisX => hy * hz / hx
                | AxisY => hx * hz / hy
                | AxisZ => hx * hy / hz
                end.
Proof.
  intros Hg. destruct (compute_A_ux_spec g c Hg) as (A & Hrun & HA).
  exists A. split; [done|]. intros p Hp Hi. cbv zeta. split.
  - rewrite (assembled_diagonal g c A HA p Hp Hi).
    unfold diagonal, ratio, spacing, vec_at. by rewrite !lit_R.
  - intros q x Hq Hx.
    apply (assembled_interior_inv g c A HA p q x Hp Hi) in Hx
      as [[? _]|(a & d & Hd & _ & -> & ->)]; [done|].
    exists a, d. split; [done|]. split; [done|].
    unfold coupling, ratio, spacing, vec_at. rewrite !lit_R.
    by destruct a.
Qed.
End RealOperator.

Section RealOperatorExamples.
Local Open Scope R_scope.

Lemma wf_grid25 : wf_grid grid25.
Proof. unfold wf_grid, grid25, serial_grid. simpl. lia. Qed.

Lemma diagonal_ctx25 :
  diagonal grid25 ctx25 (Stencil 12 12 12) = 317 / 864000.
Proof.
  unfold diagonal, ratio, spacing, ctx25, main_setup, grid25, serial_grid.
  cbn. change (25 - 1)%Z with 24%Z. field.
Qed.

Lemma spec_diagonal_ctx25 :
  spec_diagonal ctx25 (Stencil 12 12 12) = 9600016 / 75.
Proof.
  unfold spec_diagonal, vec_at, ctx25, main_setup, grid25, serial_grid.
  cbn. lra.
Qed.

(** C2, as stated, fails on the grid of [main] without options (25 nodes
    per axis, extent 1000, so dx = dy = dz = 40): at the node (12, 12, 12)
    the assembled diagonal is 317/864000, built from the spacing 1/24,
    and not the value 9600016/75 of the formula with dx, dy, dz. *)
Lemma C2_counterexample_default_grid :
  ∃ A : Mat R, compute_A_ux grid25 ∅ ctx25 = Ok A ∧
    A !! (Stencil 12 12 12, Stencil 12 12 12) = Some (317 / 864000) ∧
    spec_diagonal ctx25 (Stencil 12 12 12) = 9600016 / 75 ∧
    A !! (Stencil 12 12 12, Stencil 12 12 12)
      ≠ Some (spec_diagonal ctx25 (Stencil 12 12 12)).
Proof.
  destruct (compute_A_ux_spec grid25 ctx25 wf_grid25) as (A & Hrun & HA).
  exists A. split; [done|].
  assert (A !! (Stencil 12 12 12, Stencil 12 12 12) = Some (317 / 864000))
    as HAp.
  { rewrite (assembled_diagonal grid25 ctx25 A HA), diagonal_ctx25; [done|..].
    - unfold owned, grid25, serial_grid. simpl. lia.
    - unfold interior_node, grid25, serial_grid. simpl. lia. }
  split; [done|]. split; [apply spec_diagonal_ctx25|].
  rewrite HAp, spec_diagonal_ctx25. intros [= H]. lra.
Qed.
End RealOperatorExamples.

(* ===================================================================== *)
(** ** The right-hand side over the reals *)
(* ===================================================================== *)

Section RealRhs.
Context {srv : PetscServices R}.
Local Open Scope R_scope.

(** C1 (amended). At every step, with c' the context after [source_term]
    and dt2 = dt^2, the loop nest of [update_b_ux] ends and leaves in [_b],
    the vector then handed to the null-space removal: 0 at every owned
    node with an index at 0 or at the node count minus 1; and at every
    owned interior node
    hx hy hz (5 u[n-1] - 4 u[n-2] + 1 u[n-3] + s),
    where s = dt2 / density fx at the source node (isrc, jsrc, ksrc) and
    s = 0 at every other node, and hx = 1 / (mx - 1), hy = 1 / (my - 1),
    hz = 1 / (mz - 1). The source term lies inside the scaling. *)
Theorem C1_rhs_values (g : DMDALocalInfo) (c : ctx_t R) (b0 : Vec R) :
  wf_grid g → src_in_range c →
  let c' := source_term c in
  let dt2 := dt (time c') ^ 2 in
  ∃ b, fill_b g c' dt2 b0 = Ok b ∧
       update_b_ux g b0 c = Ok (c', MatNullSpaceRemove b) ∧
    ∀ p, owned g p →
      (boundary_node g p → vec_at b p = 0) ∧
      (interior_node g p →
         let hx := 1 / IZR (mx g - 1) in
         let hy := 1 / IZR (my g - 1) in
         let hz := 1 / IZR (mz g - 1) in
         let s := if decide (p = source_node c)
                  then dt2 / vec_at (rho (model c)) p * fx (src c')
                  else 0 in
         vec_at b p =
           hx * hy * hz
           * (5 * vec_at (uxm1 (wf c)) p - 4 * vec_at (uxm2 (wf c)) p
              + 1 * vec_at (uxm3 (wf c)) p + s)).
Proof.
  intros Hg Hc c' dt2.
  destruct (fill_b_spec g c' dt2 b0 Hg Hc) as (b & Hrun & Hb & _).
  exists b. split; [done|]. split.
  { unfold update_b_ux.
    change (fill_b g (source_term c)
              (s_pow (dt (time (source_term c))) 2) b0)
      with (fill_b g c' dt2 b0).
    by rewrite Hrun. }
  intros p Hp. rewrite (Hb p Hp). unfold b_value. split.
  - intros Hbd. rewrite decide_True by done. apply lit_R.
  - intros Hi. rewrite decide_False by (by apply interior_not_boundary).
    cbv zeta. unfold spacing. rewrite !lit_R.
    change (source_node c') with (source_node c).
    by case_decide.
Qed.

Lemma wf_grid3 : wf_grid grid3.
Proof. unfold wf_grid, grid3, serial_grid. simpl. lia. Qed.

Lemma src_in_range_ctx3 : src_in_range ctx3.
Proof. unfold src_in_range. vm_compute. intuition discriminate. Qed.

Lemma b_value_ctx3 :
  b_value grid3 ctx3 (dt (time ctx3) ^ 2) (Stencil 1 1 1)
  = 145801 / 233280.
Proof.
  unfold b_value. rewrite decide_False.
  2: { unfold boundary_node. simpl. lia. }
  rewrite decide_True by done.
  unfold spacing, vec_at, ctx3, main_setup, grid3, serial_grid.
  cbn. unfold zero_vec, VecSet. change (3 - 1)%Z with 2%Z. field.
Qed.

(** C1, as stated, fails at the source node (1, 1, 1) of the grid of 3
    nodes per axis with u[n-1] = 1, u[n-2] = u[n-3] = 0, fx = 1 and
    dt2 = dt^2 = 25/729, density 1000: the loop leaves
    1/8 (5 + 1/29160) = 145801/233280, the source term scaled like the
    history. The stated formula gives 5 (1000/3)^3 + 1/29160 with the
    spacings dx = dy = dz = 1000/3 of the grid model, and
    5/8 + 1/29160 = 9113/14580 with the spacings 1/2 of the callback. *)
Lemma C1_counterexample_source_node :
  ∃ b, fill_b grid3 ctx3 (dt (time ctx3) ^ 2) zero_vec = Ok b ∧
    vec_at b (Stencil 1 1 1) = 145801 / 233280 ∧
    vec_at b (Stencil 1 1 1)
      ≠ spec_rhs (dx (model ctx3)) (dy (model ctx3)) (dz (model ctx3))
          ctx3 (dt (time ctx3) ^ 2) (Stencil 1 1 1) ∧
    vec_at b (Stencil 1 1 1)
      ≠ spec_rhs (spacing 3) (spacing 3) (spacing 3)
          ctx3 (dt (time ctx3) ^ 2) (Stencil 1 1 1).
Proof.
  destruct (fill_b_spec grid3 ctx3 (dt (time ctx3) ^ 2) zero_vec
              wf_grid3 src_in_range_ctx3) as (b & Hrun & Hb & _).
  exists b. split; [done|].
  assert (vec_at b (Stencil 1 1 1) = 145801 / 233280) as ->.
  { rewrite Hb, b_value_ctx3; [done|].
    unfold owned, grid3, serial_grid. simpl. lia. }
  split; [done|].
  unfold spec_rhs. rewrite !decide_True by done.
  unfold spacing, vec_at, ctx3, main_setup, grid3, serial_grid. cbn.
  unfold zero_vec, VecSet. change (3 - 1)%Z with 2%Z. split; lra.
Qed.
End RealRhs.

(* ===================================================================== *)
(** ** The wavelet *)
(* ===================================================================== *)

Section Wavelet.
Local Open Scope R_scope.

(** The wavelet of [source_term] in terms of the time of the step and of
    the delay. *)
Lemma ricker_R (c : ctx_t R) :
  let a := PI * PI * f0 (src c) * f0 (src c) in
  let d := step_time c - wavelet_delay c in
  ricker c = factor (src c) * (1 - 2 * a * d ^ 2) * exp (- a * d ^ 2).
Proof. cbv zeta. unfold ricker. cbv zeta. by rewrite !lit_R. Qed.

(** The literal [1.2f] is the single-precision number nearest to 1.2: a
    multiple of 2^-23 (the spacing of single precision between 1 and 2)
    within half a spacing of 1.2; it is above 1.2. *)
Lemma float_1_2_nearest :
  (float_1_2 : R) = 10066330 / 2 ^ 23 ∧
  Rabs (float_1_2 - 12 / 10) < / 2 ^ 24 ∧ 12 / 10 < float_1_2.
Proof.
  unfold float_1_2. simpl. split; [lra|]. split; [|lra].
  apply Rabs_def1; lra.
Qed.

(** Away from the delay the wavelet is strictly below a positive
    amplitude. *)
Lemma ricker_below_amplitude (c : ctx_t R) :
  0 < factor (src c) → f0 (src c) ≠ 0 →
  step_time c ≠ wavelet_delay c →
  ricker c < factor (src c).
Proof.
  intros HF Hf Hd. rewrite ricker_R. cbv zeta.
  set (a := PI * PI * f0 (src c) * f0 (src c)).
  set (d := step_time c - wavelet_delay c).
  assert (0 < a) as Ha.
  { unfold a. assert (0 < PI) as HP by (unfold PI; simpl; lra).
    assert (0 < f0 (src c) * f0 (src c)) by nra.
    rewrite Rmult_assoc. apply Rmult_lt_0_compat; [|done].
    by apply Rmult_lt_0_compat. }
  assert (0 < d ^ 2) as Hd2.
  { assert (d ≠ 0) by (unfold d; lra). simpl. nra. }
  assert (0 < a * d ^ 2) as Hx by (by apply Rmult_lt_0_compat).
  assert (exp (- a * d ^ 2) < 1) as He.
  { rewrite <- exp_0. apply exp_increasing. lra. }
  pose proof (exp_pos (- a * d ^ 2)) as Hp.
  assert ((1 - 2 * a * d ^ 2) * exp (- a * d ^ 2) < 1) as Hlt.
  { destruct (Rle_dec (1 - 2 * a * d ^ 2) 0) as [Hn|Hn]; nra. }
  rewrite Rmult_assoc. nra.
Qed.

(** C5. The wavelet computed by [source_term],
    w = amplitude (1 - 2 a (t - t0)^2) exp (- a (t - t0)^2) with
    a = PI^2 f0^2 (PI the constant 3.1415926535 of the program),
    t = (step - 1) dt and the delay t0 = 1.2f / f0, where 1.2f is the
    single-precision literal of the program, 10066330 / 2^23 =
    1.2000000476837158203125 and not the decimal 1.2, is symmetric about
    this t0: two steps whose times are t0 + s and t0 - s (for the same
    frequency and amplitude) give the same value; and when t = t0 the value
    is exactly the amplitude. *)
Theorem C5_ricker_peak_and_symmetry (c1 c2 : ctx_t R) (s : R) :
  f0 (src c1) = f0 (src c2) → factor (src c1) = factor (src c2) →
  step_time c1 = wavelet_delay c1 + s →
  step_time c2 = wavelet_delay c2 - s →
  ricker c1 = ricker c2 ∧
  (s = 0 → ricker c1 = factor (src c1)) ∧
  ricker c1 =
    (let t := (IZR (it (time c1)) - 1) * dt (time c1) in
     let t0 := 10066330 / 2 ^ 23 / f0 (src c1) in
     let a := PI * PI * f0 (src c1) * f0 (src c1) in
     factor (src c1) * (1 - 2 * a * (t - t0) ^ 2)
     * exp (- a * (t - t0) ^ 2)).
Proof.
  intros Hf Ha H1 H2.
  assert (step_time c1 - wavelet_delay c1 = s) as E1 by lra.
  assert (step_time c2 - wavelet_delay c2 = - s) as E2 by lra.
  split; [|split].
  - rewrite !ricker_R. cbv zeta. rewrite E1, E2, Hf, Ha.
    by replace ((- s) ^ 2) with (s ^ 2) by ring.
  - intros ->. rewrite ricker_R. cbv zeta. rewrite E1.
    replace (0 ^ 2) with 0 by ring.
    rewrite !Rmult_0_r, Rminus_0_r, exp_0. ring.
  - rewrite ricker_R. cbv zeta. unfold step_time, wavelet_delay.
    destruct float_1_2_nearest as [-> _]. done.
Qed.

(** The hypotheses of C5 at the steps 3 and 1, then 2 and 2, of a run
    whose time step is the delay of the wavelet. *)
Lemma C5_witness :
  (step_time (peak_ctx 3)
     = wavelet_delay (peak_ctx 3) + wavelet_delay ctx25 ∧
   step_time (peak_ctx 1)
     = wavelet_delay (peak_ctx 1) - wavelet_delay ctx25 ∧
   ricker (peak_ctx 3) = ricker (peak_ctx 1)) ∧
  (step_time (peak_ctx 2) = wavelet_delay (peak_ctx 2) + 0 ∧
   ricker (peak_ctx 2) = factor (src (peak_ctx 2))).
Proof.
  assert (step_time (peak_ctx 3)
          = wavelet_delay (peak_ctx 3) + wavelet_delay ctx25) as H3.
  { unfold step_time, wavelet_delay. simpl. lra. }
  assert (step_time (peak_ctx 1)
          = wavelet_delay (peak_ctx 1) - wavelet_delay ctx25) as H1.
  { unfold step_time, wavelet_delay. simpl. lra. }
  assert (step_time (peak_ctx 2) = wavelet_delay (peak_ctx 2) + 0) as H2.
  { unfold step_time, wavelet_delay. simpl. lra. }
  assert (step_time (peak_ctx 2) = wavelet_delay (peak_ctx 2) - 0) as H2'.
  { unfold step_time, wavelet_delay. simpl. lra. }
  split.
  - split; [exact H3|]. split; [exact H1|].
    exact (proj1 (C5_ricker_peak_and_symmetry (peak_ctx 3) (peak_ctx 1)
                    (wavelet_delay ctx25) eq_refl eq_refl H3 H1)).
  - split; [exact H2|].
    exact (proj1 (proj2 (C5_ricker_peak_and_symmetry (peak_ctx 2)
                           (peak_ctx 2) 0 eq_refl eq_refl H2 H2'))
             eq_refl).
Defined.

(** The amplitude and the frequency of [main]. *)
Lemma factor_ctx25_pos : 0 < factor (src ctx25).
Proof. simpl. lra. Qed.

Lemma wavelet_delay_ctx25 :
  wavelet_delay ctx25 = 10066330 / 8388608 / 70.
Proof. unfold wavelet_delay, float_1_2. simpl. lra. Qed.

(** C5, the statement with the decimal delay 1.2 / f0 fails. With the
    frequency 70 and the amplitude 10^10 of [main], at a step whose time
    is 1.2 / f0 the wavelet is strictly below the amplitude; and the
    values at the times 1.2 / f0 + s and 1.2 / f0 - s differ for
    s = (1.2f - 1.2) / f0, the first one being the peak. *)
Theorem C5_counterexample_decimal_delay :
  let t0 := 12 / 10 / f0 (src ctx25) in
  (step_time (timed_ctx (12 / 10 / 70)) = t0 ∧
   ricker (timed_ctx (12 / 10 / 70))
   ≠ factor (src (timed_ctx (12 / 10 / 70)))) ∧
  (step_time (timed_ctx (12 / 10 / 70 + delay_excess)) = t0 + delay_excess ∧
   step_time (timed_ctx (12 / 10 / 70 - delay_excess)) = t0 - delay_excess ∧
   ricker (timed_ctx (12 / 10 / 70 + delay_excess))
   ≠ ricker (timed_ctx (12 / 10 / 70 - delay_excess))).
Proof.
  cbv zeta.
  assert (∀ d, step_time (timed_ctx d) = d) as Ht.
  { intros d. unfold step_time. simpl. lra. }
  assert (∀ d, wavelet_delay (timed_ctx d) = 10066330 / 8388608 / 70)
    as Hw by (intros d; exact wavelet_delay_ctx25).
  assert (f0 (src ctx25) = 70) as Hf by (simpl; lra).
  assert (∀ d, d ≠ 10066330 / 8388608 / 70 →
            ricker (timed_ctx d) < factor (src ctx25)) as Hbelow.
  { intros d Hd.
    apply (ricker_below_amplitude (timed_ctx d)).
    - exact factor_ctx25_pos.
    - change (f0 (src ctx25) ≠ 0). lra.
    - by rewrite Ht, Hw. }
  rewrite !Ht, Hf. unfold delay_excess. split.
  - split; [done|]. apply Rlt_not_eq, Hbelow. lra.
  - split; [done|]. split; [done|]. apply Rgt_not_eq.
    replace (12 / 10 / 70 + (10066330 / 8388608 / 70 - 12 / 10 / 70))
      with (10066330 / 8388608 / 70) by lra.
    assert (ricker (timed_ctx (10066330 / 8388608 / 70))
            = factor (src ctx25)) as ->.
    { rewrite ricker_R. cbv zeta. rewrite Ht, Hw.
      replace (10066330 / 8388608 / 70 - 10066330 / 8388608 / 70)
        with 0 by lra.
      replace (0 ^ 2) with 0 by ring.
      rewrite !Rmult_0_r, Rminus_0_r, exp_0.
      change (factor (src (timed_ctx (10066330 / 8388608 / 70))))
        with (factor (src ctx25)). ring. }
    apply Hbelow. lra.
Qed.
End Wavelet.

(* ===================================================================== *)
(** ** The time loop *)
(* ===================================================================== *)

Lemma for_iter_total {St : Type} (body : Z → St → res St) :
  (∀ x s, ∃ s', body x s = Ok s') →
  ∀ n x s, ∃ s', for_iter n x body s = Ok s'.
Proof.
  intros Hb. induction n as [|n IH]; intros x s; simpl.
  - by eexists.
  - destruct (Hb x s) as [s' ->]. apply IH.
Qed.

Lemma for_range_total {St : Type} (body : Z → St → res St) lo hi s :
  (∀ x s, ∃ s', body x s = Ok s') → ∃ s', for_range lo hi body s = Ok s'.
Proof. intros Hb. by apply for_iter_total. Qed.

Lemma for_range_empty {St : Type} (body : Z → St → res St) lo hi s :
  hi ≤ lo → for_range lo hi body s = Ok s.
Proof.
  intros Hle. unfold for_range.
  by replace (Z.to_nat (hi - lo)) with 0%nat by lia.
Qed.

Section TimeLoop.
Context {T : Type} {ops : PetscScalar T} {srv : PetscServices T}.

Lemma fill_b_total g (c : ctx_t T) dt2 b0 :
  ∃ b, fill_b g c dt2 b0 = Ok b.
Proof.
  unfold fill_b. apply for_range_total. intros k b1.
  apply for_range_total. intros j b2.
  apply for_range_total. intros i b3. by eexists.
Qed.

Lemma update_b_ux_total g (c : ctx_t T) b0 :
  ∃ b, update_b_ux g b0 c = Ok (source_term c, b).
Proof.
  unfold update_b_ux.
  destruct (fill_b_total g (source_term c)
              (s_pow (dt (time (source_term c))) 2) b0) as [b ->].
  by eexists.
Qed.

(** The operator depends on the context through the model and the time
    step only. *)
Lemma compute_A_ux_ext (g : DMDALocalInfo) (A : Mat T)
    (c c' : ctx_t T) :
  model c' = model c → dt (time c') = dt (time c) →
  compute_A_ux g A c' = compute_A_ux g A c.
Proof.
  intros Hm Hd. unfold compute_A_ux, fill_row. by rewrite Hm, Hd.
Qed.

Lemma ricker_ext (c c' : ctx_t T) :
  f0 (src c') = f0 (src c) → factor (src c') = factor (src c) →
  dt (time c') = dt (time c) → it (time c') = it (time c) →
  ricker c' = ricker c.
Proof. intros Hf Ha Hd Hi. unfold ricker. by rewrite Hf, Ha, Hd, Hi. Qed.

Lemma same_params_refl (c : ctx_t T) : same_params c c.
Proof. by repeat split. Qed.

Lemma same_params_trans (c1 c2 c3 : ctx_t T) :
  same_params c1 c2 → same_params c2 c3 → same_params c1 c3.
Proof.
  unfold same_params. intros H12 H23. destruct_and!.
  repeat split; congruence.
Qed.

(** One iteration on a well-formed grid: it ends without error; the
    solver keeps its operator or computes it; the force is the one of
    [source_term] at this step; the history has moved by one slot. *)
Lemma time_step_spec g n (s : sim_state T) :
  wf_grid g →
  ∃ s' A, time_step g n s = Ok s' ∧
    sim_A s' = Some A ∧
    match sim_A s with
    | Some A0 => A = A0
    | None => compute_A_ux g ∅ (sim_ctx s) = Ok A
    end ∧
    same_params (sim_ctx s) (sim_ctx s') ∧
    it (time (sim_ctx s')) = n ∧
    src (sim_ctx s') = src (source_term (set_it (sim_ctx s) n)) ∧
    ux (wf (sim_ctx s')) =
      KSP_kernel A (sim_b s') (ux (wf (sim_ctx s))) ∧
    uxm1 (wf (sim_ctx s')) = ux (wf (sim_ctx s')) ∧
    uxm2 (wf (sim_ctx s')) = uxm1 (wf (sim_ctx s)) ∧
    uxm3 (wf (sim_ctx s')) = uxm2 (wf (sim_ctx s)).
Proof.
  intros Hg. unfold time_step, KSPSolve. cbn [sim_A sim_ctx sim_b].
  destruct (update_b_ux_total g (set_it (sim_ctx s) n) (sim_b s))
    as [b ->]. rewrite res_bind_Ok.
  assert (∃ A, match sim_A s with
               | Some A0 => Ok A0
               | None => compute_A_ux g ∅
                           (source_term (set_it (sim_ctx s) n))
               end = Ok A
               ∧ match sim_A s with
                 | Some A0 => A = A0
                 | None => compute_A_ux g ∅ (sim_ctx s) = Ok A
                 end) as (A & -> & HA).
  { destruct (sim_A s) as [A0|].
    - by exists A0.
    - destruct (compute_A_ux_spec g (sim_ctx s) Hg) as (A & HA & _).
      exists A. split; [|done].
      by rewrite (compute_A_ux_ext g ∅ (sim_ctx s)). }
  rewrite !res_bind_Ok. eexists _, A. split; [reflexivity|].
  cbn. repeat split; done.
Qed.

Lemma run_0 g (s : sim_state T) : run g 0 s = Ok s.
Proof. unfold run. by apply for_range_empty. Qed.

Lemma run_succ g n (s : sim_state T) :
  0 ≤ n → run g (n + 1) s = run g n s ≫= time_step g (n + 1).
Proof. intros Hn. unfold run. apply for_range_last. lia. Qed.

(** The loop on a well-formed grid never fails and keeps the parameters;
    from the first step on, the solver holds the operator assembled from
    the initial context. *)
Lemma run_spec g (s0 : sim_state T) n :
  wf_grid g → 0 ≤ n →
  ∃ s, run g n s0 = Ok s ∧ same_params (sim_ctx s0) (sim_ctx s) ∧
    (sim_A s0 = None → 1 ≤ n →
     ∃ A, sim_A s = Some A ∧ compute_A_ux g ∅ (sim_ctx s0) = Ok A).
Proof.
  intros Hg Hn. revert n Hn.
  apply (natlike_ind (λ n, ∃ s, run g n s0 = Ok s
           ∧ same_params (sim_ctx s0) (sim_ctx s)
           ∧ (sim_A s0 = None → 1 ≤ n →
              ∃ A, sim_A s = Some A
                   ∧ compute_A_ux g ∅ (sim_ctx s0) = Ok A))).
  - exists s0. rewrite run_0. split; [done|].
    split; [apply same_params_refl|lia].
  - intros n Hn (s & Hrun & Hpar & HA).
    destruct (time_step_spec g (n + 1) s Hg)
      as (s' & A & Hstep & HA' & Hop & Hpar' & _).
    exists s'. unfold Z.succ. rewrite run_succ, Hrun by done.
    split; [exact Hstep|].
    split; [by eapply same_params_trans|].
    intros H0 _. exists A. split; [done|].
    destruct (decide (n = 0)) as [->|Hn0].
    + rewrite run_0 in Hrun. injection Hrun as <-.
      by rewrite H0 in Hop.
    + destruct HA as (A1 & HA1 & Hc); [done|lia|].
      rewrite HA1 in Hop. by subst A1.
Qed.

(** The force that [source_term] leaves in the context. *)
Lemma source_term_force (c : ctx_t T) :
  fx (src (source_term c)) = s_sin (force_angle c) [*] ricker c ∧
  fy (src (source_term c)) = s_cos (force_angle c) [*] ricker c ∧
  fz (src (source_term c)) = s_sin (force_angle c) [*] ricker c.
Proof. done. Qed.

(** C6. At every step n of the time loop, the force components left in
    the context by the source evaluation are fx = sin(theta) w,
    fy = cos(theta) w and fz = sin(theta) w, where theta is the force
    angle of the run brought from degrees to radians
    (angle_force PI / 180) and w the wavelet value of step n; so fx and
    fz are equal at every step. *)
Theorem C6_force_components (g : DMDALocalInfo) (s0 : sim_state T)
    (n : Z) :
  wf_grid g → 1 ≤ n →
  ∃ s, run g n s0 = Ok s ∧
    let theta := angle_force (src (sim_ctx s0)) [*] PI [/] lit 180 0 in
    let w := ricker (set_it (sim_ctx s0) n) in
    fx (src (sim_ctx s)) = s_sin theta [*] w ∧
    fy (src (sim_ctx s)) = s_cos theta [*] w ∧
    fz (src (sim_ctx s)) = s_sin theta [*] w ∧
    fx (src (sim_ctx s)) = fz (src (sim_ctx s)).
Proof.
  intros Hg Hn.
  destruct (run_spec g s0 (n - 1) Hg ltac:(lia)) as (s1 & Hrun & Hpar & _).
  destruct (time_step_spec g n s1 Hg)
    as (s & A & Hstep & _ & _ & _ & _ & Hsrc & _).
  exists s. split.
  { replace n with (n - 1 + 1) at 1 by lia.
    rewrite run_succ, Hrun by lia.
    by replace (n - 1 + 1) with n by lia. }
  destruct Hpar as (_ & Hdt & _ & _ & _ & _ & Hfac & Hang & Hf0).
  destruct (source_term_force (set_it (sim_ctx s1) n)) as (Hx & Hy & Hz).
  assert (ricker (set_it (sim_ctx s1) n) = ricker (set_it (sim_ctx s0) n))
    as Hw by (by apply ricker_ext).
  assert (force_angle (set_it (sim_ctx s1) n)
          = angle_force (src (sim_ctx s0)) [*] PI [/] lit 180 0) as Ha.
  { unfold force_angle. simpl. by rewrite Hang. }
  cbv zeta. rewrite Hsrc, Hx, Hy, Hz, Hw, Ha. done.
Qed.

(** C7. Every iteration of the time loop moves the history by one slot:
    after it, n-3 holds what n-2 held, n-2 what n-1 held, and n-1 the
    solution just computed by the solver. Hence, for every step k > 3,
    the vectors held at step k (after k - 1 iterations) are: as n-1 the
    solution of step k - 1, as n-2 the solution of step k - 2 and as n-3
    the solution of step k - 3. *)
Theorem C7_history_rotation (g : DMDALocalInfo) (s0 : sim_state T)
    (k : Z) :
  wf_grid g → 3 < k →
  (∀ n s, ∃ s' A, time_step g n s = Ok s' ∧ sim_A s' = Some A ∧
     ux (wf (sim_ctx s')) = KSP_kernel A (sim_b s') (ux (wf (sim_ctx s)))
     ∧ uxm1 (wf (sim_ctx s')) = ux (wf (sim_ctx s'))
     ∧ uxm2 (wf (sim_ctx s')) = uxm1 (wf (sim_ctx s))
     ∧ uxm3 (wf (sim_ctx s')) = uxm2 (wf (sim_ctx s))) ∧
  ∃ s1 s2 s3,
    run g (k - 1) s0 = Ok s1 ∧ run g (k - 2) s0 = Ok s2 ∧
    run g (k - 3) s0 = Ok s3 ∧
    uxm1 (wf (sim_ctx s1)) = ux (wf (sim_ctx s1)) ∧
    uxm2 (wf (sim_ctx s1)) = ux (wf (sim_ctx s2)) ∧
    uxm3 (wf (sim_ctx s1)) = ux (wf (sim_ctx s3)).
Proof.
  intros Hg Hk. split.
  { intros n s.
    destruct (time_step_spec g n s Hg)
      as (s' & A & Hstep & HA & _ & _ & _ & _ & Hux & H1 & H2 & H3).
    by exists s', A. }
  destruct (run_spec g s0 (k - 4) Hg ltac:(lia)) as (s4 & Hrun4 & _).
  destruct (time_step_spec g (k - 3) s4 Hg)
    as (s3 & ? & Hstep3 & _ & _ & _ & _ & _ & _ & H31 & _).
  destruct (time_step_spec g (k - 2) s3 Hg)
    as (s2 & ? & Hstep2 & _ & _ & _ & _ & _ & _ & H21 & H22 & _).
  destruct (time_step_spec g (k - 1) s2 Hg)
    as (s1 & ? & Hstep1 & _ & _ & _ & _ & _ & _ & H11 & H12 & H13).
  assert (run g (k - 3) s0 = Ok s3) as Hrun3.
  { replace (k - 3) with (k - 4 + 1) by lia.
    rewrite run_succ, Hrun4 by lia.
    by replace (k - 4 + 1) with (k - 3) by lia. }
  assert (run g (k - 2) s0 = Ok s2) as Hrun2.
  { replace (k - 2) with (k - 3 + 1) by lia.
    rewrite run_succ, Hrun3 by lia.
    by replace (k - 3 + 1) with (k - 2) by lia. }
  assert (run g (k - 1) s0 = Ok s1) as Hrun1.
  { replace (k - 1) with (k - 2 + 1) by lia.
    rewrite run_succ, Hrun2 by lia.
    by replace (k - 2 + 1) with (k - 1) by lia. }
  exists s1, s2, s3. repeat split; try done; congruence.
Qed.

End TimeLoop.

(* ===================================================================== *)
(** ** Closed instances *)
(* ===================================================================== *)

Section Instances.
Local Open Scope R_scope.

Lemma wf_grid2 : wf_grid grid2.
Proof. unfold wf_grid, grid2, serial_grid. simpl. lia. Qed.

Lemma far_from_boundary_grid25 (k j i : Z) :
  (2 ≤ k ≤ 22)%Z → (2 ≤ j ≤ 22)%Z → (2 ≤ i ≤ 22)%Z →
  far_from_boundary grid25 (Stencil k j i).
Proof. intros Hk Hj Hi a d [-> | ->]; destruct a; simpl; lia. Qed.


End Instances.

Section Witnesses.
Local Open Scope R_scope.

Lemma owned_p12 : owned grid25 (Stencil 12 12 12).
Proof. unfold owned, grid25, serial_grid. simpl. lia. Defined.

Lemma interior_p12 : interior_node grid25 (Stencil 12 12 12).
Proof. unfold interior_node, grid25, serial_grid. simpl. lia. Defined.

(** C1 at the grid of 3 nodes per axis: the boundary node (0, 1, 1). *)
Lemma C1_witness :
  wf_grid grid3 ∧ src_in_range ctx3 ∧
  ∃ b, update_b_ux (srv := sample_services) grid3 zero_vec ctx3
       = Ok (source_term ctx3, b)
       ∧ vec_at b (Stencil 0 1 1) = 0.
Proof.
  split; [exact wf_grid3|]. split; [exact src_in_range_ctx3|].
  destruct (C1_rhs_values (srv := sample_services) grid3 ctx3 zero_vec
              wf_grid3 src_in_range_ctx3) as (b & _ & Hupd & Hb).
  exists b. split; [exact Hupd|].
  apply (Hb (Stencil 0 1 1)).
  - unfold owned, grid3, serial_grid. simpl. lia.
  - unfold boundary_node. simpl. lia.
Defined.

(** C2 at the grid of [main] without options: the node (12, 12, 12). *)
Lemma C2_witness :
  wf_grid grid25 ∧
  ∃ A : Mat R, compute_A_ux grid25 ∅ ctx25 = Ok A ∧
    let h := 1 / IZR (25 - 1) in
    let coeff := vec_at (c11 (model ctx25)) (Stencil 12 12 12) in
    let density := vec_at (rho (model ctx25)) (Stencil 12 12 12) in
    let dt := dt (time ctx25) in
    A !! (Stencil 12 12 12, Stencil 12 12 12) =
      Some (coeff * (dt * dt) / density * 2
            * (h * h / h + h * h / h + h * h / h) + 2 * h * h * h).
Proof.
  split; [exact wf_grid25|].
  destruct (C2_interior_row_values grid25 ctx25 wf_grid25)
    as (A & Hrun & HA).
  exists A. split; [exact Hrun|].
  exact (proj1 (HA (Stencil 12 12 12) owned_p12 interior_p12)).
Defined.

(** C3 at the grid of [main] without options: a coupling that is present
    and one towards the boundary. *)
Lemma C3_witness :
  wf_grid grid25 ∧
  ∃ A : Mat R, compute_A_ux grid25 ∅ ctx25 = Ok A ∧
    is_Some (A !! (Stencil 12 12 12, Stencil 12 12 13)) ∧
    A !! (Stencil 12 12 1, Stencil 12 12 0) = None.
Proof.
  split; [exact wf_grid25|].
  destruct (C3_coupling_iff_neighbour_strictly_inside grid25 ctx25
              wf_grid25) as (A & Hrun & HA).
  exists A. split; [exact Hrun|]. split.
  - apply (proj1 (HA (Stencil 12 12 12) AxisX 1%Z owned_p12 interior_p12
                    (or_introl eq_refl))).
    simpl. lia.
  - assert (owned grid25 (Stencil 12 12 1)) as Ho
      by (unfold owned, grid25, serial_grid; simpl; lia).
    assert (interior_node grid25 (Stencil 12 12 1)) as Hi
      by (unfold interior_node, grid25, serial_grid; simpl; lia).
    apply (proj2 (HA (Stencil 12 12 1) AxisX (-1)%Z Ho Hi
                    (or_intror eq_refl))).
    left. reflexivity.
Defined.

(** C4 at the grid of [main] without options: the boundary node
    (0, 5, 7). *)
Lemma C4_witness :
  wf_grid grid25 ∧
  ∃ A : Mat R, compute_A_ux grid25 ∅ ctx25 = Ok A ∧
    A !! (Stencil 0 5 7, Stencil 0 5 7) = Some 1.
Proof.
  split; [exact wf_grid25|].
  destruct (C4_boundary_row_is_identity grid25 ctx25 wf_grid25)
    as (A & Hrun & HA).
  exists A. split; [exact Hrun|].
  apply (HA (Stencil 0 5 7)).
  - unfold owned, grid25, serial_grid. simpl. lia.
  - unfold boundary_node. simpl. lia.
Defined.

(** C6 at the fifth step of [main] without options. *)
Lemma C6_witness :
  wf_grid grid25 ∧ (1 ≤ 5)%Z ∧
  ∃ s, run (srv := sample_services) grid25 5
         (main_state grid25 zero_wfield zero_ctx zero_vec) = Ok s ∧
    fx (src (sim_ctx s)) = fz (src (sim_ctx s)).
Proof.
  split; [exact wf_grid25|]. split; [lia|].
  destruct (C6_force_components (srv := sample_services) grid25
              (main_state grid25 zero_wfield zero_ctx zero_vec) 5
              wf_grid25 ltac:(lia)) as (s & Hrun & _ & _ & _ & Hxz).
  exists s. split; [exact Hrun|exact Hxz].
Defined.

(** C7 at the fourth step of [main] without options. *)
Lemma C7_witness :
  wf_grid grid25 ∧ (3 < 4)%Z ∧
  ∃ s1 s2 s3,
    run (srv := sample_services) grid25 3
      (main_state grid25 zero_wfield zero_ctx zero_vec) = Ok s1 ∧
    run (srv := sample_services) grid25 2
      (main_state grid25 zero_wfield zero_ctx zero_vec) = Ok s2 ∧
    run (srv := sample_services) grid25 1
      (main_state grid25 zero_wfield zero_ctx zero_vec) = Ok s3 ∧
    uxm1 (wf (sim_ctx s1)) = ux (wf (sim_ctx s1)) ∧
    uxm2 (wf (sim_ctx s1)) = ux (wf (sim_ctx s2)) ∧
    uxm3 (wf (sim_ctx s1)) = ux (wf (sim_ctx s3)).
Proof.
  split; [exact wf_grid25|]. split; [lia|].
  exact (proj2 (C7_history_rotation (srv := sample_services) grid25
                  (main_state grid25 zero_wfield zero_ctx zero_vec) 4
                  wf_grid25 ltac:(lia))).
Defined.


(** C9 at the grid of [main] without options: the nodes (12, 12, 12) and
    (12, 12, 13). *)
Lemma C9_witness :
  wf_grid grid25 ∧
  far_from_boundary grid25 (Stencil 12 12 12) ∧
  far_from_boundary grid25 (Stencil 12 12 13) ∧
  ∃ A : Mat R, compute_A_ux grid25 ∅ ctx25 = Ok A ∧
    A !! (Stencil 12 12 12, Stencil 12 12 13)
    = A !! (Stencil 12 12 13, Stencil 12 12 12).
Proof.
  split; [exact wf_grid25|].
  assert (far_from_boundary grid25 (Stencil 12 12 12)) as F1
    by (apply far_from_boundary_grid25; lia).
  assert (far_from_boundary grid25 (Stencil 12 12 13)) as F2
    by (apply far_from_boundary_grid25; lia).
  split; [exact F1|]. split; [exact F2|].
  destruct (C9_interior_symmetry grid25 zero_wfield zero_ctx wf_grid25)
    as (A & Hrun & HA).
  exists A. split; [exact Hrun|].
  assert (owned grid25 (Stencil 12 12 13)) as Ho
    by (unfold owned, grid25, serial_grid; simpl; lia).
  assert (interior_node grid25 (Stencil 12 12 13)) as Hi
    by (unfold interior_node, grid25, serial_grid; simpl; lia).
  exact (proj2 (HA (Stencil 12 12 12) (Stencil 12 12 13) AxisX 1%Z
                  owned_p12 Ho interior_p12 Hi F1 F2
                  (or_introl eq_refl) eq_refl)).
Defined.

(** C10 at the node (12, 12, 12) of the grid of [main] without options,
    on arrays never written: the row takes all 7 slots. *)
Lemma C10_witness :
  length (replicate 7 (@None R)) = 7%nat ∧
  length (replicate 7 (@None MatStencil)) = 7%nat ∧
  ∃ r, fill_row grid25 ctx25 (dt (time ctx25) * dt (time ctx25))
         (spacing 25) (spacing 25) (spacing 25)
         (ratio grid25 AxisX) (ratio grid25 AxisY) (ratio grid25 AxisZ)
         12 12 12 (replicate 7 None) (replicate 7 None) = Ok r
       ∧ row_n r = 7%Z.
Proof.
  split; [reflexivity|]. split; [reflexivity|].
  destruct (C10_row_count_within_arrays grid25 ctx25
              (dt (time ctx25) * dt (time ctx25))
              (spacing 25) (spacing 25) (spacing 25)
              (ratio grid25 AxisX) (ratio grid25 AxisY)
              (ratio grid25 AxisZ) 12 12 12
              (replicate 7 None) (replicate 7 None) eq_refl eq_refl)
    as (r & Hr & _ & _ & _ & Hn).
  exists r. split; [exact Hr|]. vm_compute in Hn. exact Hn.
Defined.
End Witnesses.

(* ===================================================================== *)
(** ** Further properties of the operator *)
(* ===================================================================== *)

Section OperatorShape.
Context {T : Type} {ops : PetscScalar T}.

(** An off-diagonal entry of the row of [p] at the column [q] has its
    transposed entry in the row of [q], when the couplings of the two
    nodes have the same values. *)
Lemma entry_transposed g (c : ctx_t T) p q x :
  wf_grid g → owned g p → p ≠ q →
  (∀ a, coupling g c q a = coupling g c p a) →
  (q, x) ∈ row_entries g c p → (p, x) ∈ row_entries g c q.
Proof.
  intros Hg Hp Hne Hco Hin.
  apply row_entries_elem in Hin
    as [(_ & -> & _)|(Hnb & [[-> _]|(a & d & Hd & Hc & -> & ->)])];
    [done|done|].
  assert (interior_node g p) as (Ii & Ij & Ik).
  { destruct (boundary_or_interior g p Hg Hp); tauto. }
  apply row_entries_elem. right. split.
  - unfold boundary_node. destruct p as [k j i], a; simpl in *; lia.
  - right. exists a, (- d). rewrite coord_shift, Hco.
    repeat split; try lia.
    + destruct a; simpl in *; lia.
    + destruct a; simpl in *; lia.
    + destruct p, a; simpl; f_equal; lia.
Qed.

(** X1. With the constant material vectors that [main] sets up, the
    assembled operator is symmetric on the owned nodes: the entries at
    (p, q) and at (q, p) are both absent or both present with the same
    value. The coupling dropped towards a boundary node has no counterpart
    in the identity row of that node. *)
Theorem operator_symmetric (g : DMDALocalInfo) (w : wfield T)
    (ctx : ctx_t T) :
  wf_grid g →
  ∃ A : Mat T, compute_A_ux g ∅ (main_setup g w ctx) = Ok A ∧
    ∀ p q, owned g p → owned g q → A !! (p, q) = A !! (q, p).
Proof.
  intros Hg.
  destruct (compute_A_ux_spec g (main_setup g w ctx) Hg) as (A & Hrun & HA).
  exists A. split; [done|]. intros p q Hp Hq.
  destruct (decide (p = q)) as [->|Hne]; [done|].
  apply option_eq. intros x. rewrite !(HA _ _ x). split.
  - intros [_ Hin]. split; [done|].
    by apply (entry_transposed g _ p q x).
  - intros [_ Hin]. split; [done|].
    by apply (entry_transposed g _ q p x).
Qed.

(** X2. Every entry that [compute_A_ux] sets lies in the row of an owned
    node, and its column is a node of the grid: the node of the row or one
    of its six face neighbours. No call of [MatSetValuesStencil] gets an
    index outside the grid, and the operator fits the star stencil of
    width 1 that [main] asks of the grid. *)
Theorem operator_within_star (g : DMDALocalInfo) (c : ctx_t T) :
  wf_grid g →
  ∃ A : Mat T, compute_A_ux g ∅ c = Ok A ∧
    ∀ p q x, A !! (p, q) = Some x →
      owned g p ∧ in_grid g q = true ∧
      (q = p ∨ ∃ a d, (d = 1 ∨ d = -1) ∧ q = shift a d p).
Proof.
  intros Hg. destruct (compute_A_ux_spec g c Hg) as (A & Hrun & HA).
  exists A. split; [done|]. intros p q x Hx.
  apply HA in Hx as [Hp Hin]. split; [done|].
  split; [by eapply row_entries_in_grid|].
  apply row_entries_elem in Hin
    as [(_ & -> & _)|(_ & [[-> _]|(a & d & Hd & _ & -> & _)])];
    [by left|by left|].
  right. by exists a, d.
Qed.
End OperatorShape.

(* ===================================================================== *)
(** ** Further properties of the right-hand side and of the loop *)
(* ===================================================================== *)

Section RhsShape.
Context {T : Type} {ops : PetscScalar T}.

(** The body of the loop nest writes one entry, whose value does not depend
    on the vector it writes to. *)
Lemma b_node_vec_set g (c : ctx_t T) dt2 hx hy hz k j i _b :
  b_node g c dt2 hx hy hz k j i _b
  = vec_set _b k j i
      (b_node g c dt2 hx hy hz k j i (VecSet (lit 0 0)) k j i).
Proof.
  unfold b_node. destruct (on_boundary g k j i);
    f_equal; unfold vec_set; by rewrite decide_True.
Qed.

Lemma fill_b_overwrites g (c : ctx_t T) dt2 b0 :
  wf_grid g →
  ∃ b, fill_b g c dt2 b0 = Ok b ∧
    (∀ p, owned g p →
       vec_at b p =
         b_node g c dt2 (spacing (mx g)) (spacing (my g)) (spacing (mz g))
           (st_k p) (st_j p) (st_i p) (VecSet (lit 0 0))
           (st_k p) (st_j p) (st_i p)) ∧
    (∀ p, ¬ owned g p → vec_at b p = vec_at b0 p).
Proof.
  intros Hg. unfold fill_b. pose proof Hg as (Gx & Gy & Gz).
  rewrite !u32_small by lia.
  destruct (nest_inv (zs g) (zs g + zm g) (ys g) (ys g + ym g)
              (xs g) (xs g + xm g)
              (λ k j i _b, Ok (b_node g c dt2 (spacing (mx g))
                                 (spacing (my g)) (spacing (mz g))
                                 k j i _b))
              (λ D b, ∀ p,
                 (D p → vec_at b p =
                    b_node g c dt2 (spacing (mx g)) (spacing (my g))
                      (spacing (mz g)) (st_k p) (st_j p) (st_i p)
                      (VecSet (lit 0 0)) (st_k p) (st_j p) (st_i p)) ∧
                 (¬ D p → vec_at b p = vec_at b0 p)))
    with (s0 := b0) as (b & Hrun & Hb); try lia.
  - intros D D' s HD Hs p. rewrite <- HD. apply Hs.
  - intros k j i s Hk Hj Hi Hs. eexists. split; [done|].
    intros p. rewrite b_node_vec_set, vec_at_set.
    destruct (decide (p = Stencil k j i)) as [->|Hne].
    + split; [done|]. intros Hn. exfalso. apply Hn.
      unfold passed. simpl. lia.
    + destruct (Hs p) as [Hs1 Hs2].
      assert (passed (zs g) (zs g + zm g) (ys g) (ys g + ym g) (xs g)
                (xs g + xm g) k j (i + 1) p
              ↔ passed (zs g) (zs g + zm g) (ys g) (ys g + ym g) (xs g)
                  (xs g + xm g) k j i p) as ->; [|done].
      destruct p as [k' j' i']. unfold passed. simpl.
      assert (¬ (k' = k ∧ j' = j ∧ i' = i)) by (intros (-> & -> & ->); done).
      lia.
  - intros p. split; [tauto|done].
  - exists b. split; [exact Hrun|]. split.
    + intros p Hp. apply Hb. unfold owned in Hp. lia.
    + intros p Hp. apply Hb. unfold owned in Hp. lia.
Qed.

(** X3. The loop nest of [update_b_ux] rewrites the vector on the whole
    owned box and nowhere else: what it leaves at an owned node does not
    depend on the incoming contents of the vector (nothing of the previous
    step survives there), and every entry outside the owned box is left as
    it was. *)
Theorem rhs_overwrites_owned_box (g : DMDALocalInfo) (c : ctx_t T)
    (dt2 : T) (b0 b0' : Vec T) :
  wf_grid g →
  ∃ b b', fill_b g c dt2 b0 = Ok b ∧ fill_b g c dt2 b0' = Ok b' ∧
    (∀ p, owned g p → vec_at b p = vec_at b' p) ∧
    (∀ p, ¬ owned g p → vec_at b p = vec_at b0 p).
Proof.
  intros Hg.
  destruct (fill_b_overwrites g c dt2 b0 Hg) as (b & Hrun & Hb & Hout).
  destruct (fill_b_overwrites g c dt2 b0' Hg) as (b' & Hrun' & Hb' & _).
  exists b, b'. split; [done|]. split; [done|]. split; [|done].
  intros p Hp. by rewrite Hb, Hb'.
Qed.

(** X4. The source node that [main] chooses, (nx / 2, ny / 2, nz / 2), is
    an interior node exactly when every axis has at least 3 nodes; its
    indices are then within the type of the comparison in
    [update_b_ux]. *)
Theorem source_node_interior_iff (g : DMDALocalInfo) (w : wfield T)
    (ctx : ctx_t T) :
  wf_grid g →
  (interior_node g (source_node (main_setup g w ctx))
   ↔ 3 ≤ mx g ∧ 3 ≤ my g ∧ 3 ≤ mz g) ∧
  src_in_range (main_setup g w ctx).
Proof.
  intros ((? & ? & ? & ?) & (? & ? & ? & ?) & (? & ? & ? & ?)).
  unfold interior_node, src_in_range, source_node. simpl.
  rewrite !Z.quot_div_nonneg by lia.
  pose proof (Z.div_mod (mx g) 2 ltac:(lia)).
  pose proof (Z.mod_pos_bound (mx g) 2 ltac:(lia)).
  pose proof (Z.div_mod (my g) 2 ltac:(lia)).
  pose proof (Z.mod_pos_bound (my g) 2 ltac:(lia)).
  pose proof (Z.div_mod (mz g) 2 ltac:(lia)).
  pose proof (Z.mod_pos_bound (mz g) 2 ltac:(lia)).
  split; [split|]; lia.
Qed.

(** X5. On a grid with fewer than 3 nodes along some axis, the loop nest
    of [update_b_ux] leaves 0 at every owned node, whatever the history and
    the force: every node passes the boundary test and the source term is
    never added. *)
Theorem rhs_zero_on_small_grid (g : DMDALocalInfo) (c : ctx_t T)
    (dt2 : T) (b0 : Vec T) :
  wf_grid g → mx g < 3 ∨ my g < 3 ∨ mz g < 3 →
  ∃ b, fill_b g c dt2 b0 = Ok b ∧ ∀ p, owned g p → vec_at b p = lit 0 0.
Proof.
  intros Hg Hsmall.
  destruct (fill_b_overwrites g c dt2 b0 Hg) as (b & Hrun & Hb & _).
  exists b. split; [done|]. intros p Hp. rewrite (Hb p Hp).
  destruct p as [k j i]. simpl. unfold b_node.
  rewrite on_boundary_spec by done.
  destruct (owned_in_grid _ _ Hg Hp) as [Hr _]. simpl in Hr.
  rewrite bool_decide_eq_true_2.
  - unfold vec_set. by rewrite decide_True.
  - unfold boundary_node. simpl. lia.
Qed.
End RhsShape.

Section LoopShape.
Context {T : Type} {ops : PetscScalar T} {srv : PetscServices T}.

(** X6. Keeping the operator across the steps is sound: the loop never
    alters what [compute_A_ux] reads. After any number n >= 1 of
    iterations, started with a solver that has no operator, the matrix the
    solver holds is the one [compute_A_ux] would assemble again from the
    context of that step; the model, the time step, the number of steps
    and the source parameters are those of the start, and the step index
    of the context is n. *)
Theorem operator_assembled_once (g : DMDALocalInfo) (s0 : sim_state T)
    (n : Z) :
  wf_grid g → sim_A s0 = None → 1 ≤ n →
  ∃ s A, run g n s0 = Ok s ∧ sim_A s = Some A ∧
    compute_A_ux g ∅ (sim_ctx s) = Ok A ∧
    same_params (sim_ctx s0) (sim_ctx s) ∧
    it (time (sim_ctx s)) = n.
Proof.
  intros Hg H0 Hn.
  destruct (run_spec g s0 n Hg ltac:(lia)) as (s & Hrun & Hpar & HA).
  destruct (HA H0 Hn) as (A & HsA & Hc).
  exists s, A. split; [done|]. split; [done|]. split; [|split; [done|]].
  - rewrite (compute_A_ux_ext g ∅ (sim_ctx s0) (sim_ctx s)); [done|..];
      apply Hpar.
  - destruct (run_spec g s0 (n - 1) Hg ltac:(lia)) as (s1 & Hrun1 & _).
    destruct (time_step_spec g n s1 Hg)
      as (s' & A' & Hstep & _ & _ & _ & Hit & _).
    replace n with (n - 1 + 1) in Hrun at 1 by lia.
    rewrite run_succ, Hrun1 in Hrun by lia.
    replace (n - 1 + 1) with n in Hrun by lia.
    change (time_step g n s1 = Ok s) in Hrun.
    rewrite Hstep in Hrun. by injection Hrun as <-.
Qed.
End LoopShape.

(* ===================================================================== *)
(** ** Further properties over the reals *)
(* ===================================================================== *)

Section RealShape.
Local Open Scope R_scope.

(** The factor c11 dt^2 / rho of the couplings at a node. *)
Lemma coupling_R (g : DMDALocalInfo) (c : ctx_t R) (p : MatStencil) a :
  coupling g c p a
  = - (vec_at (c11 (model c)) p * (dt (time c) * dt (time c))
       / vec_at (rho (model c)) p * ratio g a).
Proof. unfold coupling, vec_at. simpl. unfold Rdiv. ring. Qed.

Lemma diagonal_R (g : DMDALocalInfo) (c : ctx_t R) (p : MatStencil) :
  diagonal g c p
  = 2 * (vec_at (c11 (model c)) p * (dt (time c) * dt (time c))
         / vec_at (rho (model c)) p * ratio g AxisX)
    + 2 * (vec_at (c11 (model c)) p * (dt (time c) * dt (time c))
           / vec_at (rho (model c)) p * ratio g AxisY)
    + 2 * (vec_at (c11 (model c)) p * (dt (time c) * dt (time c))
           / vec_at (rho (model c)) p * ratio g AxisZ)
    + 2 * (spacing (mx g) * spacing (my g) * spacing (mz g)).
Proof.
  unfold diagonal, vec_at. rewrite !lit_R. simpl. unfold Rdiv. ring.
Qed.

Lemma spacing_pos (m : Z) : (2 ≤ m)%Z → 0 < spacing m.
Proof.
  intros Hm. unfold spacing. rewrite lit_R. simpl.
  apply Rdiv_lt_0_compat; [lra|]. apply IZR_lt. lia.
Qed.

Lemma ratio_pos (g : DMDALocalInfo) a :
  (2 ≤ mx g)%Z → (2 ≤ my g)%Z → (2 ≤ mz g)%Z → 0 < ratio g a.
Proof.
  intros Hx Hy Hz. pose proof (spacing_pos _ Hx).
  pose proof (spacing_pos _ Hy). pose proof (spacing_pos _ Hz).
  destruct a; simpl; apply Rdiv_lt_0_compat; try done;
    by apply Rmult_lt_0_compat.
Qed.

(** The value read at a face neighbour of an interior node. *)
Lemma mat_get_coupling (g : DMDALocalInfo) (c : ctx_t R) (A : Mat R) p a d :
  assembled g c A → owned g p → interior_node g p → (d = 1 ∨ d = -1)%Z →
  mat_get A p (shift a d p)
  = if decide (0 < coord a p + d < count a g - 1)%Z
    then coupling g c p a else 0.
Proof.
  intros HA Hp Hi Hd. unfold mat_get.
  rewrite (assembled_coupling g c A HA p a d Hp Hi Hd).
  case_decide; [done|]. simpl. lra.
Qed.

(** X7. With positive stiffness and density and a nonzero time step, every
    interior row of the assembled operator is strictly diagonally
    dominant: the diagonal is positive, the couplings to the six face
    neighbours are negative or absent, and the sum of their absolute
    values is strictly below the diagonal. *)
Theorem interior_row_diagonally_dominant (g : DMDALocalInfo)
    (c : ctx_t R) :
  wf_grid g →
  (∀ k j i, 0 < c11 (model c) k j i) → (∀ k j i, 0 < rho (model c) k j i) →
  dt (time c) ≠ 0 →
  ∃ A : Mat R, compute_A_ux g ∅ c = Ok A ∧
    ∀ p, owned g p → interior_node g p →
      let off a d := mat_get A p (shift a d p) in
      0 < mat_get A p p ∧
      (∀ a d, (d = 1 ∨ d = -1)%Z → off a d <= 0) ∧
      Rabs (off AxisX (-1)%Z) + Rabs (off AxisX 1%Z)
      + Rabs (off AxisY (-1)%Z) + Rabs (off AxisY 1%Z)
      + Rabs (off AxisZ (-1)%Z) + Rabs (off AxisZ 1%Z)
      < mat_get A p p.
Proof.
  intros Hg Hc11 Hrho Hdt.
  destruct (compute_A_ux_spec g c Hg) as (A & Hrun & HA).
  exists A. split; [done|]. intros p Hp Hi off.
  assert (mat_get A p p = diagonal g c p) as Hdiag.
  { unfold mat_get. by rewrite (assembled_diagonal g c A HA p Hp Hi). }
  pose proof Hi as (Ii & Ij & Ik).
  assert (0 < vec_at (c11 (model c)) p * (dt (time c) * dt (time c))
              / vec_at (rho (model c)) p) as HK.
  { apply Rdiv_lt_0_compat; [|apply Hrho].
    apply Rmult_lt_0_compat; [apply Hc11|]. nra. }
  assert (∀ a, 0 < vec_at (c11 (model c)) p
                   * (dt (time c) * dt (time c))
                   / vec_at (rho (model c)) p * ratio g a) as HP.
  { intros a. apply Rmult_lt_0_compat; [done|]. apply ratio_pos; lia. }
  assert (0 < spacing (mx g) * spacing (my g) * spacing (mz g)) as HH.
  { apply Rmult_lt_0_compat; [apply Rmult_lt_0_compat|];
      apply spacing_pos; lia. }
  assert (∀ a d, (d = 1 ∨ d = -1)%Z →
            off a d <= 0 ∧
            Rabs (off a d) <= vec_at (c11 (model c)) p
                                * (dt (time c) * dt (time c))
                                / vec_at (rho (model c)) p * ratio g a)
    as Hoff.
  { intros a d Hd. unfold off.
    rewrite (mat_get_coupling g c A p a d HA Hp Hi Hd).
    specialize (HP a). case_decide.
    - rewrite coupling_R. split; [lra|].
      rewrite Rabs_Ropp, Rabs_pos_eq; lra.
    - rewrite Rabs_R0. lra. }
  rewrite Hdiag, diagonal_R.
  pose proof (HP AxisX). pose proof (HP AxisY). pose proof (HP AxisZ).
  split; [lra|]. split; [intros a d Hd; by apply Hoff|].
  destruct (Hoff AxisX (-1)%Z) as [_ ?]; [by right|].
  destruct (Hoff AxisX 1%Z) as [_ ?]; [by left|].
  destruct (Hoff AxisY (-1)%Z) as [_ ?]; [by right|].
  destruct (Hoff AxisY 1%Z) as [_ ?]; [by left|].
  destruct (Hoff AxisZ (-1)%Z) as [_ ?]; [by right|].
  destruct (Hoff AxisZ 1%Z) as [_ ?]; [by left|].
  lra.
Qed.

Lemma far_is_interior (g : DMDALocalInfo) (p : MatStencil) :
  far_from_boundary g p → interior_node g p.
Proof.
  intros Hf. unfold interior_node.
  pose proof (Hf AxisX 1%Z ltac:(by left)).
  pose proof (Hf AxisX (-1)%Z ltac:(by right)).
  pose proof (Hf AxisY 1%Z ltac:(by left)).
  pose proof (Hf AxisY (-1)%Z ltac:(by right)).
  pose proof (Hf AxisZ 1%Z ltac:(by left)).
  pose proof (Hf AxisZ (-1)%Z ltac:(by right)).
  simpl in *. lia.
Qed.

(** X8. The operator and the right-hand side agree on states that are
    constant in space and linear in time: at an owned node far from the
    boundary that is not the source node, if the history holds u - v,
    u - 2 v and u - 3 v at the node, then the row of the operator applied
    to the constant vector u equals the right-hand side there, and both
    are 2 hx hy hz u. The stiffness part of the row cancels on constants
    and the weights 5, -4, 1 extrapolate the history to u. *)
Theorem linear_history_consistency (g : DMDALocalInfo) (c : ctx_t R)
    (dt2 : R) (b0 : Vec R) (u v : R) :
  wf_grid g → src_in_range c →
  ∃ (A : Mat R) b, compute_A_ux g ∅ c = Ok A ∧ fill_b g c dt2 b0 = Ok b ∧
    ∀ p, owned g p → far_from_boundary g p → p ≠ source_node c →
      vec_at (uxm1 (wf c)) p = u - v →
      vec_at (uxm2 (wf c)) p = u - 2 * v →
      vec_at (uxm3 (wf c)) p = u - 3 * v →
      star_product A (VecSet u) p = vec_at b p ∧
      vec_at b p
      = 2 * (spacing (mx g) * spacing (my g) * spacing (mz g)) * u.
Proof.
  intros Hg Hc.
  destruct (compute_A_ux_spec g c Hg) as (A & Hrun & HA).
  destruct (fill_b_spec g c dt2 b0 Hg Hc) as (b & Hfill & Hb & _).
  exists A, b. split; [done|]. split; [done|].
  intros p Hp Hfar Hsrc H1 H2 H3.
  pose proof (far_is_interior g p Hfar) as Hi.
  assert (vec_at b p
          = 2 * (spacing (mx g) * spacing (my g) * spacing (mz g)) * u)
    as Hbp.
  { rewrite (Hb p Hp). unfold b_value.
    rewrite decide_False by (by apply interior_not_boundary).
    rewrite decide_False by done.
    rewrite H1, H2, H3, !lit_R. simpl. ring. }
  split; [|done]. rewrite Hbp. unfold star_product.
  assert (mat_get A p p = diagonal g c p) as ->.
  { unfold mat_get. by rewrite (assembled_diagonal g c A HA p Hp Hi). }
  assert (∀ a d, (d = 1 ∨ d = -1)%Z →
            mat_get A p (shift a d p) = coupling g c p a) as Hoff.
  { intros a d Hd. rewrite (mat_get_coupling g c A p a d HA Hp Hi Hd).
    rewrite decide_True; [done|].
    rewrite <- coord_shift. by apply Hfar. }
  rewrite !Hoff by (by left) || (by right).
  rewrite diagonal_R, !coupling_R.
  change (@smul R R_scalar) with Rmult. change (@sadd R R_scalar) with Rplus.
  assert (∀ q, vec_at (VecSet u) q = u) as Hu by done.
  rewrite !Hu. ring.
Qed.
End RealShape.

Section RealSource.
Local Open Scope R_scope.

(** The shape (1 - 2 x) exp (- x) of the wavelet stays within -1 and 1. *)
Lemma ricker_shape_bound (x : R) :
  0 <= x → Rabs ((1 - 2 * x) * exp (- x)) <= 1.
Proof.
  intros Hx.
  pose proof (exp_pos (- x)) as He.
  assert (exp (- x) * exp x = 1) as Hinv.
  { rewrite <- exp_plus. replace (- x + x) with 0 by ring. apply exp_0. }
  pose proof (exp_ineq1_le x) as H1.
  pose proof (exp_ineq1_le (x / 2)) as Hh.
  assert (exp x = exp (x / 2) * exp (x / 2)) as Hsq.
  { rewrite <- exp_plus. f_equal. field. }
  assert (2 * x - 1 <= exp x) as Hlow.
  { rewrite Hsq.
    assert ((1 + x / 2) * (1 + x / 2) <= exp (x / 2) * exp (x / 2))
      by (apply Rmult_le_compat; lra).
    nra. }
  assert (exp (- x) <= 1) as He1 by nra.
  apply Rabs_le. split.
  - assert ((2 * x - 1) * exp (- x) <= exp x * exp (- x))
      by (apply Rmult_le_compat_r; lra).
    lra.
  - nra.
Qed.

(** X9. The wavelet never exceeds the amplitude in absolute value, at any
    step and for any frequency and time step; neither does any of the
    three force components that [source_term] stores. *)
Theorem wavelet_bounded_by_amplitude (c : ctx_t R) :
  Rabs (ricker c) <= Rabs (factor (src c)) ∧
  Rabs (fx (src (source_term c))) <= Rabs (factor (src c)) ∧
  Rabs (fy (src (source_term c))) <= Rabs (factor (src c)) ∧
  Rabs (fz (src (source_term c))) <= Rabs (factor (src c)).
Proof.
  assert (Rabs (ricker c) <= Rabs (factor (src c))) as Hw.
  { rewrite ricker_R. cbv zeta.
    set (a := PI * PI * f0 (src c) * f0 (src c)).
    set (d := step_time c - wavelet_delay c).
    assert (0 <= a * d ^ 2) as Hx.
    { apply Rmult_le_pos; [|apply pow2_ge_0].
      unfold a. replace (PI * PI * f0 (src c) * f0 (src c))
        with ((PI * f0 (src c)) ^ 2) by ring.
      apply pow2_ge_0. }
    replace (factor (src c) * (1 - 2 * a * d ^ 2) * exp (- a * d ^ 2))
      with (factor (src c)
            * ((1 - 2 * (a * d ^ 2)) * exp (- (a * d ^ 2)))).
    2: { replace (- a * d ^ 2) with (- (a * d ^ 2)) by ring. ring. }
    rewrite Rabs_mult.
    pose proof (ricker_shape_bound _ Hx).
    pose proof (Rabs_pos (factor (src c))). nra. }
  split; [done|].
  assert (fx (src (source_term c)) = sin (force_angle c) * ricker c ∧
          fy (src (source_term c)) = cos (force_angle c) * ricker c ∧
          fz (src (source_term c)) = sin (force_angle c) * ricker c)
    as (-> & -> & ->) by done.
  pose proof (Rabs_pos (ricker c)).
  assert (∀ y, -1 <= y <= 1 → Rabs (y * ricker c) <= Rabs (factor (src c)))
    as Hb.
  { intros y Hy. rewrite Rabs_mult.
    assert (Rabs y <= 1) by (by apply Rabs_le).
    pose proof (Rabs_pos y). nra. }
  repeat split; apply Hb; first [apply SIN_bound | apply COS_bound].
Qed.

End RealSource.

(* ===================================================================== *)
(** ** The snapshots *)
(* ===================================================================== *)

Lemma string_length_app (a b : string) :
  String.length (a +:+ b) = (String.length a + String.length b)%nat.
Proof. induction a as [|ch a IH]; simpl; [done|]. by rewrite IH. Qed.

Lemma string_app_cancel_r (a b s : string) : a +:+ s = b +:+ s → a = b.
Proof.
  revert b. induction a as [|ch a IH]; intros [|ch' b] H; simpl in *.
  - done.
  - apply (f_equal String.length) in H.
    rewrite !string_length_app in H. simpl in H. lia.
  - apply (f_equal String.length) in H.
    rewrite !string_length_app in H. simpl in H. lia.
  - injection H as -> H. f_equal. by apply IH.
Qed.

Lemma substring_all (s : string) (n : nat) :
  (String.length s ≤ n)%nat → String.substring 0 n s = s.
Proof.
  revert n. induction s as [|ch s IH]; intros [|n] H; simpl in *;
    try done; try lia.
  f_equal. apply IH. lia.
Qed.

Lemma pretty_N_go_length (k : nat) :
  ∀ (x : N) (s : string), (x < 10 ^ N.of_nat k)%N →
    (String.length (pretty_N_go x s) ≤ String.length s + k)%nat.
Proof.
  induction k as [|k IH]; intros x s Hx.
  - assert (x = 0%N) as -> by (simpl in Hx; lia).
    rewrite pretty_N_go_0. lia.
  - destruct (decide (x = 0%N)) as [->|Hx0].
    + rewrite pretty_N_go_0. lia.
    + rewrite pretty_N_go_step by lia.
      etrans; [apply IH|simpl; lia].
      apply N.Div0.div_lt_upper_bound.
      rewrite Nat2N.inj_succ, N.pow_succ_r' in Hx. lia.
Qed.

(** [%i] of an [int] takes at most 11 characters. *)
Lemma pretty_int_length (z : Z) :
  - 2 ^ 31 ≤ z < 2 ^ 31 → (String.length (pretty z) ≤ 11)%nat.
Proof.
  intros Hz.
  assert (∀ x : positive, Z.pos x ≤ 2 ^ 31 →
            (String.length (pretty (N.pos x)) ≤ 10)%nat) as Hpos.
  { intros x Hx. unfold pretty, pretty_N.
    rewrite decide_False by done.
    apply (pretty_N_go_length 10 (N.pos x) ""). simpl. lia. }
  destruct z as [|x|x]; unfold pretty, pretty_Z.
  - simpl. lia.
  - etrans; [apply Hpos; lia|lia].
  - change (String.length ("-" +:+ pretty x))
      with (S (String.length (pretty (N.pos x)))).
    pose proof (Hpos x ltac:(lia)). lia.
Qed.

(** The name of a snapshot is never cut by [snprintf] for an [int] step,
    and has at most 22 characters. *)
Lemma snapshot_name_full (z : Z) :
  - 2 ^ 31 ≤ z < 2 ^ 31 →
  snapshot_name z = "tmp_Bvec_" +:+ pretty z +:+ ".m"
  ∧ (String.length (snapshot_name z) ≤ 22)%nat.
Proof.
  intros Hz. pose proof (pretty_int_length z Hz) as Hlen.
  assert (String.length ("tmp_Bvec_" +:+ pretty z +:+ ".m") ≤ 22)%nat
    as Hl.
  { rewrite !string_length_app. simpl. lia. }
  unfold snapshot_name, snprintf.
  rewrite substring_all by (change (32 - 1)%nat with 31%nat; lia).
  done.
Qed.

(** Two [int] steps with the same snapshot name are the same step. *)
Lemma snapshot_name_inj_int (it1 it2 : Z) :
  - 2 ^ 31 ≤ it1 < 2 ^ 31 → - 2 ^ 31 ≤ it2 < 2 ^ 31 →
  snapshot_name it1 = snapshot_name it2 → it1 = it2.
Proof.
  intros H1 H2.
  destruct (snapshot_name_full it1 H1) as [E1 _].
  destruct (snapshot_name_full it2 H2) as [E2 _].
  rewrite E1, E2. intros Heq.
  apply (inj (String.append "tmp_Bvec_")) in Heq.
  apply string_app_cancel_r in Heq.
  by apply (inj pretty) in Heq.
Qed.

(** X11. The buffer of 32 characters always holds the whole name of a
    snapshot, "tmp_Bvec_<step>.m", for every value of the [int] step: the
    name has at most 22 characters and is never cut by [snprintf];
    and two different steps never get the same name. *)
Theorem snapshot_name_fits_and_distinct (it1 it2 : Z) :
  - 2 ^ 31 ≤ it1 < 2 ^ 31 → - 2 ^ 31 ≤ it2 < 2 ^ 31 →
  snapshot_name it1 = "tmp_Bvec_" +:+ pretty it1 +:+ ".m" ∧
  (String.length (snapshot_name it1) ≤ 22)%nat ∧
  (snapshot_name it1 = snapshot_name it2 → it1 = it2).
Proof.
  intros H1 H2.
  destruct (snapshot_name_full it1 H1) as [E1 L1].
  split; [done|]. split; [done|].
  by apply snapshot_name_inj_int.
Qed.

Section Snapshots.
Context {T : Type} {ops : PetscScalar T} {srv : PetscServices T}.

Lemma run_report_0 g (st : sim_state T * gmap string (Vec T)) :
  run_report g 0 st = Ok st.
Proof. unfold run_report. by apply for_range_empty. Qed.

Lemma run_report_succ g n (st : sim_state T * gmap string (Vec T)) :
  0 ≤ n →
  run_report g (n + 1) st = run_report g n st ≫= time_step_report g (n + 1).
Proof. intros Hn. unfold run_report. apply for_range_last. lia. Qed.

(** The loop with its reports: the state is the one of the loop alone, and
    the files are the snapshots of the steps that are multiples of 40. *)
Lemma run_report_spec g (s0 : sim_state T) n :
  wf_grid g → 0 ≤ n < 2 ^ 31 →
  ∃ s files, run_report g n (s0, ∅) = Ok (s, files) ∧ run g n s0 = Ok s ∧
    ∀ name u, files !! name = Some u ↔
      ∃ k sk, 1 ≤ k ≤ n ∧ Z.rem k 40 = 0 ∧ name = snapshot_name k
              ∧ run g k s0 = Ok sk ∧ u = ux (wf (sim_ctx sk)).
Proof.
  intros Hg [Hn Hmax]. revert n Hn Hmax.
  apply (natlike_ind (λ n, n < 2 ^ 31 →
    ∃ s files, run_report g n (s0, ∅) = Ok (s, files) ∧ run g n s0 = Ok s ∧
      ∀ name u, files !! name = Some u ↔
        ∃ k sk, 1 ≤ k ≤ n ∧ Z.rem k 40 = 0 ∧ name = snapshot_name k
                ∧ run g k s0 = Ok sk ∧ u = ux (wf (sim_ctx sk)))).
  - intros _. exists s0, ∅. rewrite run_report_0, run_0.
    split; [done|]. split; [done|]. intros name u.
    rewrite lookup_empty. split; [done|]. intros (k & _ & ? & _). lia.
  - intros n Hn IH Hmax. unfold Z.succ in *.
    destruct IH as (s & files & Hrep & Hrun & Hfiles); [lia|].
    destruct (time_step_spec g (n + 1) s Hg) as (s' & _ & Hstep & _).
    assert (run g (n + 1) s0 = Ok s') as Hrun'.
    { by rewrite run_succ, Hrun. }
    eexists s', _. split.
    { rewrite run_report_succ, Hrep by done.
      unfold time_step_report. simpl.
      change (time_step g (n + 1) s ≫= _) with
        (time_step g (n + 1) s ≫=
           λ s1, Ok (s1, if Z.rem (n + 1) 40 =? 0
                         then save_wavefield_to_m_file
                                (ux (wf (sim_ctx s1)))
                                (snapshot_name (n + 1)) files
                         else files)).
      rewrite Hstep. reflexivity. }
    split; [done|]. intros name u.
    destruct (Z.eqb_spec (Z.rem (n + 1) 40) 0) as [Hrem|Hrem].
    + unfold save_wavefield_to_m_file. rewrite lookup_insert.
      case_decide as Hname.
      * split.
        -- intros [= <-]. exists (n + 1), s'. repeat split; try done; lia.
        -- intros (k & sk & Hk & _ & Hnk & Hrk & ->).
           rewrite <- Hname in Hnk.
           apply snapshot_name_inj_int in Hnk; [|lia|lia].
           subst k. rewrite Hrun' in Hrk. by injection Hrk as <-.
      * rewrite Hfiles. split.
        -- intros (k & sk & Hk & ?). exists k, sk. split; [lia|done].
        -- intros (k & sk & Hk & Hr & Hnk & ?). exists k, sk.
           split; [|done]. destruct (decide (k = n + 1)) as [->|]; [|lia].
           by subst name.
    + rewrite Hfiles. split.
      * intros (k & sk & Hk & ?). exists k, sk. split; [lia|done].
      * intros (k & sk & Hk & Hr & ?). exists k, sk.
        split; [|done]. destruct (decide (k = n + 1)) as [->|]; [done|lia].
Qed.

(** X12. The reports do not interfere with the computation, and no
    snapshot is lost: after n iterations (n an [int]) from no files, the
    state is the one the loop alone reaches; for every step k <= n that is
    a multiple of 40 the file named after k holds the solution of step k,
    not overwritten by a later step; and there is no other file. *)
Theorem snapshots_kept (g : DMDALocalInfo) (s0 : sim_state T) (n : Z) :
  wf_grid g → 0 ≤ n < 2 ^ 31 →
  ∃ s files, run_report g n (s0, ∅) = Ok (s, files) ∧ run g n s0 = Ok s ∧
    (∀ k, 1 ≤ k ≤ n → Z.rem k 40 = 0 →
       ∃ sk, run g k s0 = Ok sk ∧
             files !! snapshot_name k = Some (ux (wf (sim_ctx sk)))) ∧
    (∀ name, is_Some (files !! name) →
       ∃ k, 1 ≤ k ≤ n ∧ Z.rem k 40 = 0 ∧ name = snapshot_name k).
Proof.
  intros Hg Hn.
  destruct (run_report_spec g s0 n Hg Hn)
    as (s & files & Hrep & Hrun & Hfiles).
  exists s, files. split; [done|]. split; [done|]. split.
  - intros k Hk Hrem.
    destruct (run_spec g s0 k Hg ltac:(lia)) as (sk & Hrk & _).
    exists sk. split; [done|]. apply Hfiles. by exists k, sk.
  - intros name [u Hu]. apply Hfiles in Hu as (k & sk & ? & ? & ? & _).
    by exists k.
Qed.
End Snapshots.

(* ===================================================================== *)
(** ** Closed instances of the further properties *)
(* ===================================================================== *)

Section FurtherInstances.
Local Open Scope R_scope.

Lemma src_in_range_ctx25 : src_in_range ctx25.
Proof. unfold src_in_range. vm_compute. intuition discriminate. Qed.

Lemma owned_grid25 (k j i : Z) :
  (0 ≤ k < 25)%Z → (0 ≤ j < 25)%Z → (0 ≤ i < 25)%Z →
  owned grid25 (Stencil k j i).
Proof. unfold owned, grid25, serial_grid. simpl. lia. Qed.

(** X1 on the grid of [main] without options: an interior node and the
    boundary node next to it. *)
Lemma X1_witness :
  wf_grid grid25 ∧
  ∃ A : Mat R, compute_A_ux grid25 ∅ ctx25 = Ok A ∧
    A !! (Stencil 12 12 1, Stencil 12 12 0)
    = A !! (Stencil 12 12 0, Stencil 12 12 1).
Proof.
  split; [exact wf_grid25|].
  destruct (operator_symmetric grid25 zero_wfield zero_ctx wf_grid25)
    as (A & Hrun & HA).
  exists A. split; [exact Hrun|].
  apply HA; apply owned_grid25; lia.
Defined.

(** X2 on the grid of [main] without options. *)
Lemma X2_witness :
  wf_grid grid25 ∧
  ∃ A : Mat R, compute_A_ux grid25 ∅ ctx25 = Ok A ∧
    ∀ p q x, A !! (p, q) = Some x → in_grid grid25 q = true.
Proof.
  split; [exact wf_grid25|].
  destruct (operator_within_star grid25 ctx25 wf_grid25) as (A & Hrun & HA).
  exists A. split; [exact Hrun|].
  intros p q x Hx. exact (proj1 (proj2 (HA p q x Hx))).
Defined.

(** X3 on the grid of [main] without options, from two different incoming
    vectors. *)
Lemma X3_witness :
  wf_grid grid25 ∧
  ∃ b b', fill_b grid25 ctx25 1 zero_vec = Ok b ∧
          fill_b grid25 ctx25 1 (VecSet 1) = Ok b' ∧
          vec_at b (Stencil 12 12 12) = vec_at b' (Stencil 12 12 12).
Proof.
  split; [exact wf_grid25|].
  destruct (rhs_overwrites_owned_box grid25 ctx25 1 zero_vec (VecSet 1)
              wf_grid25) as (b & b' & Hb & Hb' & Hown & _).
  exists b, b'. split; [exact Hb|]. split; [exact Hb'|].
  apply Hown. exact owned_p12.
Defined.

(** X4 on the grid of [main] without options: the source node
    (12, 12, 12). *)
Lemma X4_witness :
  wf_grid grid25 ∧ interior_node grid25 (source_node ctx25).
Proof.
  split; [exact wf_grid25|].
  apply (proj1 (source_node_interior_iff grid25 zero_wfield zero_ctx
                  wf_grid25)).
  unfold grid25, serial_grid. simpl. lia.
Defined.

(** X5 on the grid with 2 nodes along x. *)
Lemma X5_witness :
  wf_grid grid2 ∧ (mx grid2 < 3 ∨ my grid2 < 3 ∨ mz grid2 < 3)%Z ∧
  ∃ b, fill_b grid2 ctx25 1 (VecSet 1) = Ok b.
Proof.
  split; [exact wf_grid2|].
  assert (mx grid2 < 3 ∨ my grid2 < 3 ∨ mz grid2 < 3)%Z as Hs
    by (left; simpl; lia).
  split; [exact Hs|].
  destruct (rhs_zero_on_small_grid grid2 ctx25 1 (VecSet 1) wf_grid2 Hs)
    as (b & Hb & _).
  exists b. exact Hb.
Defined.

(** X6 at the third step of [main] without options. *)
Lemma X6_witness :
  wf_grid grid25 ∧
  sim_A (main_state grid25 zero_wfield zero_ctx zero_vec) = None ∧
  (1 ≤ 3)%Z ∧
  ∃ s A, run (srv := sample_services) grid25 3
           (main_state grid25 zero_wfield zero_ctx zero_vec) = Ok s ∧
         sim_A s = Some A ∧ compute_A_ux grid25 ∅ (sim_ctx s) = Ok A.
Proof.
  split; [exact wf_grid25|]. split; [reflexivity|]. split; [lia|].
  destruct (operator_assembled_once (srv := sample_services) grid25
              (main_state grid25 zero_wfield zero_ctx zero_vec) 3
              wf_grid25 eq_refl ltac:(lia)) as (s & A & Hrun & HA & Hc & _).
  exists s, A. split; [exact Hrun|]. split; [exact HA|exact Hc].
Defined.

Lemma c11_ctx25_pos : ∀ k j i, 0 < c11 (model ctx25) k j i.
Proof. intros. simpl. unfold VecSet. lra. Qed.

Lemma rho_ctx25_pos : ∀ k j i, 0 < rho (model ctx25) k j i.
Proof. intros. simpl. unfold VecSet. lra. Qed.

Lemma dt_ctx25_nonzero : dt (time ctx25) ≠ 0.
Proof. simpl. lra. Qed.

(** X7 on the grid and the material of [main] without options. *)
Lemma X7_witness :
  wf_grid grid25 ∧ (∀ k j i, 0 < c11 (model ctx25) k j i) ∧
  (∀ k j i, 0 < rho (model ctx25) k j i) ∧ dt (time ctx25) ≠ 0 ∧
  ∃ A : Mat R, compute_A_ux grid25 ∅ ctx25 = Ok A ∧
    0 < mat_get A (Stencil 12 12 12) (Stencil 12 12 12).
Proof.
  split; [exact wf_grid25|]. split; [exact c11_ctx25_pos|].
  split; [exact rho_ctx25_pos|]. split; [exact dt_ctx25_nonzero|].
  destruct (interior_row_diagonally_dominant grid25 ctx25 wf_grid25
              c11_ctx25_pos rho_ctx25_pos dt_ctx25_nonzero)
    as (A & Hrun & HA).
  exists A. split; [exact Hrun|].
  exact (proj1 (HA (Stencil 12 12 12) owned_p12 interior_p12)).
Defined.

(** X8 on the grid of [main] without options, with the history at rest,
    at the node (10, 10, 10). *)
Lemma X8_witness :
  wf_grid grid25 ∧ src_in_range ctx25 ∧
  ∃ (A : Mat R) b, compute_A_ux grid25 ∅ ctx25 = Ok A ∧
    fill_b grid25 ctx25 1 zero_vec = Ok b ∧
    star_product A (VecSet 0) (Stencil 10 10 10)
    = vec_at b (Stencil 10 10 10).
Proof.
  split; [exact wf_grid25|]. split; [exact src_in_range_ctx25|].
  destruct (linear_history_consistency grid25 ctx25 1 zero_vec 0 0
              wf_grid25 src_in_range_ctx25) as (A & b & HA & Hb & H).
  exists A, b. split; [exact HA|]. split; [exact Hb|].
  assert (vec_at zero_vec (Stencil 10 10 10) = 0 - 0) as E1
    by (unfold vec_at, zero_vec, VecSet; lra).
  assert (vec_at zero_vec (Stencil 10 10 10) = 0 - 2 * 0) as E2
    by (unfold vec_at, zero_vec, VecSet; lra).
  assert (vec_at zero_vec (Stencil 10 10 10) = 0 - 3 * 0) as E3
    by (unfold vec_at, zero_vec, VecSet; lra).
  refine (proj1 (H (Stencil 10 10 10) _ _ _ E1 E2 E3)).
  - apply owned_grid25; lia.
  - apply far_from_boundary_grid25; lia.
  - intros Heq. apply (f_equal st_i) in Heq. vm_compute in Heq.
    discriminate Heq.
Defined.

(** X11 at the steps 40 and 80. *)
Lemma X11_witness :
  (- 2 ^ 31 ≤ 40 < 2 ^ 31)%Z ∧ (- 2 ^ 31 ≤ 80 < 2 ^ 31)%Z ∧
  snapshot_name 40 = "tmp_Bvec_40.m"%string ∧
  (snapshot_name 40 = snapshot_name 80 → 40 = 80)%Z.
Proof.
  assert (- 2 ^ 31 ≤ 40 < 2 ^ 31)%Z as H1 by lia.
  assert (- 2 ^ 31 ≤ 80 < 2 ^ 31)%Z as H2 by lia.
  split; [exact H1|]. split; [exact H2|].
  destruct (snapshot_name_fits_and_distinct 40 80 H1 H2) as (E & _ & Hinj).
  split; [|exact Hinj]. rewrite E. reflexivity.
Defined.

(** X12 over the 45 steps of [main] without options: the snapshot of
    step 40. *)
Lemma X12_witness :
  wf_grid grid25 ∧ (0 ≤ 45 < 2 ^ 31)%Z ∧
  ∃ s files,
    run_report (srv := sample_services) grid25 45
      (main_state grid25 zero_wfield zero_ctx zero_vec, ∅) = Ok (s, files) ∧
    is_Some (files !! snapshot_name 40).
Proof.
  split; [exact wf_grid25|]. split; [lia|].
  destruct (snapshots_kept (srv := sample_services) grid25
              (main_state grid25 zero_wfield zero_ctx zero_vec) 45
              wf_grid25 ltac:(lia)) as (s & files & Hrep & _ & Hk & _).
  exists s, files. split; [exact Hrep|].
  destruct (Hk 40%Z ltac:(lia) eq_refl) as (sk & _ & Hf).
  rewrite Hf. eexists. reflexivity.
Defined.
End FurtherInstances.

(* ===================================================================== *)
(** ** Assembling into a matrix that already has entries *)
(* ===================================================================== *)

Section Reassembly.
Context {T : Type} {ops : PetscScalar T}.

(** [compute_A_ux] on any incoming matrix: the rows of the owned nodes are
    set at the columns of their stencil, and every other position keeps
    the incoming value ([INSERT_VALUES]). *)
Lemma compute_A_ux_on (g : DMDALocalInfo) (c : ctx_t T) (A0 : Mat T) :
  wf_grid g →
  ∃ A : Mat T, compute_A_ux g A0 c = Ok A ∧
    ∀ p q x, A !! (p, q) = Some x ↔
      (owned g p ∧ (q, x) ∈ row_entries g c p) ∨
      (¬ (owned g p ∧ q ∈ (row_entries g c p).*1) ∧ A0 !! (p, q) = Some x).
Proof.
  intros Hg. pose proof Hg as (Gx & Gy & Gz).
  destruct (nest_inv (zs g) (zs g + zm g) (ys g) (ys g + ym g)
              (xs g) (xs g + xm g)
              (λ k j i '(A, v, idxn),
                 r ← fill_row g c (dt (time c) [*] dt (time c))
                       (spacing (mx g)) (spacing (my g)) (spacing (mz g))
                       (ratio g AxisX) (ratio g AxisY) (ratio g AxisZ)
                       k j i v idxn;
                 A ← MatSetValuesStencil g A
                       (Stencil (i32 k) (i32 j) (i32 i))
                       (row_n r) (row_idxn r) (row_v r);
                 Ok (A, row_v r, row_idxn r))
              (λ D '(A, v, idxn),
                 length v = 7%nat ∧ length idxn = 7%nat ∧
                 ∀ p q x, (A : Mat T) !! (p, q) = Some x ↔
                   (D p ∧ (q, x) ∈ row_entries g c p) ∨
                   (¬ (D p ∧ q ∈ (row_entries g c p).*1)
                    ∧ A0 !! (p, q) = Some x)))
    with (s0 := (A0, replicate 7 (@None T),
                  replicate 7 (@None MatStencil)))
    as ([[A v] idxn] & Hrun & (_ & _ & HA)); try lia.
  - intros D D' [[A v] idxn] HD (Hv & Hi & HA).
    split; [done|]. split; [done|].
    intros p q x. by rewrite HA, HD.
  - intros k j i [[A v] idxn] Hk Hj Hi (Hv & Hl & HA).
    assert (owned g (Stencil k j i)) as Hp by (unfold owned; simpl; lia).
    destruct (owned_in_grid _ _ Hg Hp) as [Hr Hm]. simpl in Hr.
    destruct (fill_row_spec g c k j i v idxn Hg Hp Hv Hl)
      as (r & Hfill & Hr').
    rewrite Hfill, res_bind_Ok, !i32_small by lia.
    rewrite (MatSetValuesStencil_spec g A _ r _ Hr'), res_bind_Ok.
    2: { unfold in_grid. rewrite bool_decide_eq_true. simpl. lia. }
    2: { intros [q x] Hq. by eapply row_entries_in_grid. }
    eexists. split; [reflexivity|].
    destruct Hr' as (_ & Hv' & Hl' & _).
    split; [done|]. split; [done|]. intros p q x.
    rewrite set_row_lookup by apply row_entries_NoDup. rewrite HA.
    assert ((q, x) ∈ row_entries g c p → q ∈ (row_entries g c p).*1) as HLC.
    { intros Hin. apply list_elem_of_fmap. by exists (q, x). }
    assert (¬ passed (zs g) (zs g + zm g) (ys g) (ys g + ym g) (xs g)
                (xs g + xm g) k j i (Stencil k j i)) as Hnot.
    { unfold passed. simpl. lia. }
    destruct (decide (p = Stencil k j i)) as [->|Hne].
    + assert (passed (zs g) (zs g + zm g) (ys g) (ys g + ym g) (xs g)
                (xs g + xm g) k j (i + 1) (Stencil k j i)) as Hyes.
      { unfold passed. simpl. lia. }
      tauto.
    + assert (passed (zs g) (zs g + zm g) (ys g) (ys g + ym g) (xs g)
                (xs g + xm g) k j (i + 1) p
              ↔ passed (zs g) (zs g + zm g) (ys g) (ys g + ym g) (xs g)
                  (xs g + xm g) k j i p) as ->.
      { destruct p as [k' j' i']. unfold passed. simpl.
        assert (¬ (k' = k ∧ j' = j ∧ i' = i))
          by (intros (-> & -> & ->); done).
        lia. }
      tauto.
  - split; [done|]. split; [done|]. intros p q x. tauto.
  - exists A. split.
    + unfold compute_A_ux. rewrite !u32_small by lia.
      match goal with
      | |- (?m ≫= _) = _ =>
          replace m with (Ok (A, v, idxn)) by (symmetry; exact Hrun)
      end.
      reflexivity.
    + intros p q x. rewrite HA. unfold owned. split.
      * intros [[? ?]|[Hn ?]]; [left; split; [lia|done]|right].
        split; [|done]. intros [? ?]. apply Hn. split; [lia|done].
      * intros [[? ?]|[Hn ?]]; [left; split; [lia|done]|right].
        split; [|done]. intros [? ?]. apply Hn. split; [lia|done].
Qed.

(** X13. Assembling again changes nothing: when [compute_A_ux] is run on
    the matrix it has produced from a fresh one, with the same context, it
    returns that same matrix; the values are set, not added. *)
Theorem reassembly_is_idempotent (g : DMDALocalInfo) (c : ctx_t T) :
  wf_grid g →
  ∃ A : Mat T, compute_A_ux g ∅ c = Ok A ∧ compute_A_ux g A c = Ok A.
Proof.
  intros Hg. destruct (compute_A_ux_spec g c Hg) as (A & Hrun & HA).
  exists A. split; [done|].
  destruct (compute_A_ux_on g c A Hg) as (A' & Hrun' & HA').
  rewrite Hrun'. f_equal. apply map_eq. intros [p q].
  apply option_eq. intros x. rewrite HA', (HA p q x). split.
  - intros [?|[_ ?]]; done.
  - intros [? ?]. by left.
Qed.
End Reassembly.

Section ReassemblyInstance.
(** X13 on the grid of [main] without options. *)
Lemma X13_witness :
  wf_grid grid25 ∧
  ∃ A : Mat R, compute_A_ux grid25 ∅ ctx25 = Ok A ∧
               compute_A_ux grid25 A ctx25 = Ok A.
Proof.
  split; [exact wf_grid25|].
  exact (reassembly_is_idempotent grid25 ctx25 wf_grid25).
Defined.
End ReassemblyInstance.

(* ===================================================================== *)
(** ** The set-up of main in double precision *)
(* ===================================================================== *)

Lemma all_from_spec (n : nat) (x : Z) (f : Z → bool) :
  all_from n x f = true → ∀ y, x ≤ y < x + Z.of_nat n → f y = true.
Proof.
  revert x. induction n as [|n IH]; intros x H y Hy; [lia|].
  simpl in H. apply andb_true_iff in H as [Hx Hrest].
  destruct (decide (y = x)) as [->|Hne]; [done|].
  apply (IH (x + 1) Hrest). lia.
Qed.

Section Doubles.
Context (libm_sin libm_cos libm_exp : float → float).
Context (libm_pow : float → nat → float).

Abbreviation doubles := (f64_scalar libm_sin libm_cos libm_exp libm_pow).

(** The double arithmetic of the set-up evaluated on every grid of 1 to
    100000 nodes along x. *)
Lemma setup_evaluated (w : wfield float) (ctx : ctx_t float) :
  all_from (Z.to_nat 100000) 1 (setup_as_expected doubles w ctx) = true.
Proof. vm_compute. reflexivity. Qed.

(** X10. In double precision the set-up of [main] does not always reach
    the values of exact arithmetic, tmax / dt = 9 nx / 5 and a CFL number
    of 1. On every grid of 1 to 100000 nodes along x, the number of steps
    is the integer quotient 9 nx / 5 when 5 does not divide nx, and that
    quotient or one less when it does (the quotient of tmax by dt can be
    rounded below the whole number 9 nx / 5 before the conversion to
    [PetscInt] cuts it); the CFL number that [main] prints is 1 or one of
    the two doubles next to 1. *)
Theorem step_count_in_doubles (g : DMDALocalInfo) (w : wfield float)
    (ctx : ctx_t float) :
  1 ≤ mx g ≤ 100000 →
  let c := main_setup (ops := doubles) g w ctx in
  (nt (time c) = 9 * mx g / 5
   ∨ (mx g mod 5 = 0 ∧ nt (time c) = 9 * mx g / 5 - 1)) ∧
  PrimFloat.leb (PrimFloat.next_down PrimFloat.one)
    (cfl_number (ops := doubles) c) = true ∧
  PrimFloat.leb (cfl_number (ops := doubles) c)
    (PrimFloat.next_up PrimFloat.one) = true.
Proof.
  intros Hm c.
  pose proof (all_from_spec _ _ _ (setup_evaluated w ctx) (mx g)
                ltac:(lia)) as Hok.
  unfold setup_as_expected in Hok.
  change (nt (time (main_setup (ops := doubles)
                      (serial_grid (mx g) 1 1) w ctx)))
    with (nt (time c)) in Hok.
  change (cfl_number (ops := doubles)
            (main_setup (ops := doubles) (serial_grid (mx g) 1 1) w ctx))
    with (cfl_number (ops := doubles) c) in Hok.
  apply andb_true_iff in Hok as [Hok Hup].
  apply andb_true_iff in Hok as [Hn Hdown].
  split; [|done].
  apply orb_true_iff in Hn as [Hn|Hn].
  - left. by apply Z.eqb_eq.
  - right. apply andb_true_iff in Hn as [H5 Hn].
    split; by apply Z.eqb_eq.
Qed.
End Doubles.

Section DoublesInstances.
(** X10 on a grid of 15 nodes per axis: 26 steps, where exact arithmetic
    gives tmax / dt = 27. *)
Lemma X10_witness :
  1 ≤ mx (serial_grid 15 15 15) ≤ 100000 ∧
  nt (time (main_setup (ops := sample_doubles) (serial_grid 15 15 15)
              f64_zero_wfield f64_zero_ctx)) = 26 ∧
  let c := main_setup (ops := sample_doubles) (serial_grid 15 15 15)
             f64_zero_wfield f64_zero_ctx in
  (nt (time c) = 9 * 15 / 5
   ∨ (15 mod 5 = 0 ∧ nt (time c) = 9 * 15 / 5 - 1)) ∧
  PrimFloat.leb (PrimFloat.next_down PrimFloat.one)
    (cfl_number (ops := sample_doubles) c) = true ∧
  PrimFloat.leb (cfl_number (ops := sample_doubles) c)
    (PrimFloat.next_up PrimFloat.one) = true.
Proof.
  assert (1 ≤ mx (serial_grid 15 15 15) ≤ 100000) as Hm by (simpl; lia).
  split; [exact Hm|]. split; [by vm_compute|].
  exact (step_count_in_doubles _ _ _ _ (serial_grid 15 15 15)
           f64_zero_wfield f64_zero_ctx Hm).
Defined.
End DoublesInstances.
